(** * Sign language interpreter: the confirmation loop of [src/app.py]

    A shallow embedding of the body of [run_sign_language_interpreter]:
    the bounded prediction history, the per-frame confirmation rule and
    the keyboard commands that edit the sentence.  The camera, the hand
    landmark detector, the classifier and the audio mixer are external;
    a frame enters the model as what the detector returned for it, and a
    call of [play_sound_for_prediction] leaves the model as an emitted
    confirmation event. *)

From Stdlib Require Import ZArith List String Ascii Bool Arith Lia.
Import ListNotations.
Open Scope string_scope.
Open Scope list_scope.
Open Scope nat_scope.

(** ** Constants *)

(** [MAX_SENTENCE_LENGTH = 30] (app.py, line 26). *)
Definition MAX_SENTENCE_LENGTH : nat := 30.

(** [deque(maxlen=5)] (app.py, line 67). *)
Definition HISTORY_MAXLEN : nat := 5.

(** The two texts assigned to [error_message] (lines 123, 136 and 142). *)
Definition MISMATCH_ERROR : string :=
  "Error: Feature count mismatch or Multiple hands detected".
Definition LIMIT_ERROR : string :=
  "Error: Sentence length limit reached".

(** ** Python primitives used by the loop

    Labels, the sentence and the error message are Python strings; they
    are modelled by [string], with [String.length] for [len] and
    [String.append] for [+=]. *)

(** [collections.deque.append] on a deque with a [maxlen]: the item goes
    to the right end, and when the deque then holds more than [maxlen]
    items the leftmost one is dropped. *)
Definition deque_append (maxlen : nat) (d : list string) (x : string)
  : list string :=
  let d' := d ++ [x] in
  if maxlen <? List.length d' then tl d' else d'.

(** [all(p == predicted_label for p in prediction_history)]. *)
Definition all_equal (label : string) (d : list string) : bool :=
  forallb (fun p => String.eqb p label) d.

(** [predicted_label != last_prediction], where [last_prediction] is
    [None] or a label: a label always differs from [None]. *)
Definition differs (label : string) (last : option string) : bool :=
  match last with
  | None => true
  | Some p => negb (String.eqb label p)
  end.

(** Truth value of [last_prediction] in [if last_prediction:]: [None] and
    the empty string are false, every other string is true. *)
Definition truthy (last : option string) : bool :=
  match last with
  | None => false
  | Some p => negb (String.eqb p "")
  end.

(** The slice [sentence[:-1]]: the stop index [-1] is [len - 1], clipped
    at [0], so the empty string stays empty. *)
Definition drop_last (s : string) : string :=
  substring 0 (String.length s - 1) s.

(** [ord(c)]. *)
Definition ord (c : ascii) : Z := Z.of_nat (nat_of_ascii c).

(** ** Frame classification (lines 78-100)

    The landmark coordinates are floats that only the classifier reads;
    the loop itself depends on their number alone.  The coordinate type
    and its two operations are therefore left abstract, and so is the
    trained model ([n_features_in_] and [predict]). *)

Inductive FrameResult : Type :=
| NoDetection                 (* [results.multi_hand_landmarks] is false *)
| FeatureMismatch             (* [len(data_aux) != model.n_features_in_] *)
| Detected (label : string).  (* [prediction[0]] *)

Section Adapter.
Variable Coord : Type.
Variable csub : Coord -> Coord -> Coord.
Variable cmin : Coord -> Coord -> Coord.
Variable n_features_in_ : nat.
Variable predict : list Coord -> string.

Record Landmark : Type := mkLandmark
  { lm_x : Coord; lm_y : Coord; lm_z : Coord }.

(** [min(xs)]; [None] stands for the [ValueError] on an empty list. *)
Definition py_min (xs : list Coord) : option Coord :=
  match xs with
  | [] => None
  | a :: r => Some (fold_left cmin r a)
  end.

(** The four lists that the loop over the hands fills. *)
Record Buffers : Type := mkBuffers
  { data_aux : list Coord;
    x_coords : list Coord; y_coords : list Coord; z_coords : list Coord }.

Definition empty_buffers : Buffers := mkBuffers [] [] [] [].

(** One pass of [for hand_landmarks in results.multi_hand_landmarks]
    (lines 92-98).  The coordinate lists are not reset between hands. *)
Definition add_hand (b : Buffers) (hand : list Landmark) : option Buffers :=
  let xs := x_coords b ++ map lm_x hand in
  let ys := y_coords b ++ map lm_y hand in
  let zs := z_coords b ++ map lm_z hand in
  match py_min xs, py_min ys, py_min zs with
  | Some x_min, Some y_min, Some z_min =>
      Some (mkBuffers
              (data_aux b ++
               flat_map (fun lm => [csub (lm_x lm) x_min;
                                    csub (lm_y lm) y_min;
                                    csub (lm_z lm) z_min]) hand)
              xs ys zs)
  | _, _, _ => None
  end.

Fixpoint add_hands (b : Buffers) (hands : list (list Landmark))
  : option Buffers :=
  match hands with
  | [] => Some b
  | h :: hs =>
      match add_hand b h with
      | None => None
      | Some b' => add_hands b' hs
      end
  end.

(** What one frame yields.  An absent or empty list of hands is false in
    [if results.multi_hand_landmarks:].  [None] is an exception, which
    leaves the loop through the enclosing [try]. *)
Definition classify_frame (multi_hand_landmarks : list (list Landmark))
  : option FrameResult :=
  match multi_hand_landmarks with
  | [] => Some NoDetection
  | _ =>
      match add_hands empty_buffers multi_hand_landmarks with
      | None => None
      | Some b =>
          if List.length (data_aux b) =? n_features_in_
          then Some (Detected (predict (data_aux b)))
          else Some FeatureMismatch
      end
  end.
End Adapter.

(** ** The state of the loop (lines 67-70) *)

Record State : Type := mkState
  { prediction_history : list string;
    last_prediction : option string;
    sentence : string;
    error_message : string }.

Definition initial_state : State := mkState [] None "" "".

Definition set_history (st : State) (h : list string) : State :=
  mkState h (last_prediction st) (sentence st) (error_message st).
Definition set_last (st : State) (l : option string) : State :=
  mkState (prediction_history st) l (sentence st) (error_message st).
Definition set_sentence (st : State) (s : string) : State :=
  mkState (prediction_history st) (last_prediction st) s (error_message st).
Definition set_error (st : State) (e : string) : State :=
  mkState (prediction_history st) (last_prediction st) (sentence st) e.

(** ** The frame update (lines 83-124)

    The second component is the label handed to
    [play_sound_for_prediction], when the frame confirms one. *)
Definition process_frame (st : State) (r : FrameResult)
  : State * option string :=
  match r with
  | NoDetection => (st, None)
  | Detected predicted_label =>
      let st1 := set_error st "" in
      let h := deque_append HISTORY_MAXLEN (prediction_history st1)
                            predicted_label in
      let st2 := set_history st1 h in
      if (List.length h =? 5) && all_equal predicted_label h
         && differs predicted_label (last_prediction st2)
      then (set_history (set_last st2 (Some predicted_label)) [],
            Some predicted_label)
      else (st2, None)
  | FeatureMismatch =>
      let st1 := set_error st "" in
      (set_history (set_error st1 MISMATCH_ERROR) [], None)
  end.

(** ** The key handler (lines 127-147) *)

Inductive Flow : Type := Continue | Break.

Definition handle_key (st : State) (key : Z) : State * Flow :=
  if (key =? ord " ")%Z then
    if String.length (sentence st) <? MAX_SENTENCE_LENGTH then
      match last_prediction st with
      | Some p =>
          if truthy (last_prediction st)
          then (set_history
                  (set_last (set_sentence st (sentence st ++ p)%string) None) [],
                Continue)
          else (st, Continue)
      | None => (st, Continue)
      end
    else (set_error st LIMIT_ERROR, Continue)
  else if (key =? ord "s")%Z || (key =? ord "S")%Z then
    if String.length (sentence st) <? MAX_SENTENCE_LENGTH
    then (set_sentence st (sentence st ++ " ")%string, Continue)
    else (set_error st LIMIT_ERROR, Continue)
  else if (key =? ord "b")%Z || (key =? ord "B")%Z then
    (set_error (set_sentence st (drop_last (sentence st))) "", Continue)
  else if (key =? ord "q")%Z || (key =? ord "Q")%Z then
    (st, Break)
  else (st, Continue).

(** The commands, as the key codes that select them. *)
Definition AcceptSymbol : Z := ord " ".
Definition AppendSpace : Z := ord "s".
Definition AppendSpaceUpper : Z := ord "S".
Definition DeleteLast : Z := ord "b".
Definition DeleteLastUpper : Z := ord "B".
Definition Quit : Z := ord "q".
Definition QuitUpper : Z := ord "Q".

(** ** One iteration of [while True] (lines 72-163) *)

Record Input : Type := mkInput
  { cap_read : option FrameResult;  (* [None]: [cap.read()] failed (line 74),
                                       or classifying the frame raised *)
    wait_key : Z;                   (* what [cv2.waitKey(1)] returned *)
    window_visible : bool }.        (* [WND_PROP_VISIBLE >= 1] *)

Definition loop_iteration (st : State) (i : Input)
  : State * option string * Flow :=
  match cap_read i with
  | None => (st, None, Break)
  | Some r =>
      let (st1, played) := process_frame st r in
      let (st2, flow) := handle_key st1 (Z.land (wait_key i) 255) in
      match flow with
      | Break => (st2, played, Break)
      | Continue =>
          (st2, played, if window_visible i then Continue else Break)
      end
  end.

(** The loop over a finite stream of inputs: the final state and the
    confirmation of every iteration that ran. *)
Fixpoint run_loop (st : State) (inputs : list Input)
  : State * list (option string) :=
  match inputs with
  | [] => (st, [])
  | i :: inputs' =>
      match loop_iteration st i with
      | (st', played, Break) => (st', [played])
      | (st', played, Continue) =>
          let (st'', rest) := run_loop st' inputs' in (st'', played :: rest)
      end
  end.

(** ** Traces of the state machine

    A frame result and a key press are the two kinds of event.  The loop
    alternates them; since a [NoDetection] frame and an unbound key change
    nothing, every sequence of events is a run of the loop. *)
Inductive Event : Type :=
| Frame (r : FrameResult)
| Key (k : Z).

Definition step (st : State) (e : Event) : State * option string * Flow :=
  match e with
  | Frame r => let (st', played) := process_frame st r in (st', played, Continue)
  | Key k => let (st', flow) := handle_key st k in (st', None, flow)
  end.

Fixpoint run (st : State) (es : list Event) : State * list (option string) :=
  match es with
  | [] => (st, [])
  | e :: es' =>
      match step st e with
      | (st', played, Break) => (st', [played])
      | (st', played, Continue) =>
          let (st'', rest) := run st' es' in (st'', played :: rest)
      end
  end.

(** The confirmation events of a run, in order. *)
Fixpoint confirmations (out : list (option string)) : list string :=
  match out with
  | [] => []
  | Some l :: out' => l :: confirmations out'
  | None :: out' => confirmations out'
  end.

(** [n] consecutive frames that all yield [label]. *)
Definition detected_run (n : nat) (label : string) : list Event :=
  repeat (Frame (Detected label)) n.

(** The events that leave the last confirmed label [label] in place:
    frames that detect nothing, mismatch or detect [label] again, and
    every key except the accepting one. *)
Definition keeps_confirmed (label : string) (e : Event) : Prop :=
  match e with
  | Frame (Detected l) => l = label
  | Frame _ => True
  | Key k => k <> AcceptSymbol
  end.

(** [key == ord('q') or key == ord('Q')] (line 146). *)
Definition is_quit (key : Z) : bool :=
  ((key =? ord "q") || (key =? ord "Q"))%Z.

(** The events of one iteration whose frame was read: the frame result,
    then the key, masked as in [cv2.waitKey(1) & 0xFF]. *)
Definition events_of (i : Input) : list Event :=
  match cap_read i with
  | Some r => [Frame r; Key (Z.land (wait_key i) 255)]
  | None => []
  end.

(** An iteration that neither fails to read its frame nor finds the
    window closed. *)
Definition live (i : Input) : Prop :=
  cap_read i <> None /\ window_visible i = true.

(** ** Vocabulary for traces *)

(** The number of frames of a trace that yield a label. *)
Fixpoint count_detected (es : list Event) : nat :=
  match es with
  | [] => 0
  | Frame (Detected _) :: es' => S (count_detected es')
  | _ :: es' => count_detected es'
  end.

(** The labels that the frames of a trace yield, in order. *)
Fixpoint detected_labels (es : list Event) : list string :=
  match es with
  | [] => []
  | Frame (Detected l) :: es' => l :: detected_labels es'
  | _ :: es' => detected_labels es'
  end.

(** An event other than the accepting key. *)
Definition not_accept (e : Event) : Prop :=
  match e with
  | Key k => k <> AcceptSymbol
  | Frame _ => True
  end.

(** A frame event. *)
Definition is_frame (e : Event) : Prop :=
  match e with
  | Frame _ => True
  | Key _ => False
  end.

(** No two neighbours of the list are equal. *)
Fixpoint neighbours_differ (l : list string) : Prop :=
  match l with
  | a :: (b :: _) as t => a <> b /\ neighbours_differ t
  | _ => True
  end.

(** A key code that one of the branches of the handler tests for. *)
Definition is_bound_key (k : Z) : bool :=
  ((k =? ord " ") || (k =? ord "s") || (k =? ord "S") || (k =? ord "b")
   || (k =? ord "B") || (k =? ord "q") || (k =? ord "Q"))%Z.

(** The events without any effect: a frame without a hand, and a key that
    no branch tests for (among them 255, the masked [-1] that
    [cv2.waitKey] returns when no key was pressed). *)
Definition is_idle (e : Event) : bool :=
  match e with
  | Frame NoDetection => true
  | Frame _ => false
  | Key k => negb (is_bound_key k)
  end.

(** Every label that a frame of the trace yields has at most [m]
    characters. *)
Definition label_within (m : nat) (e : Event) : Prop :=
  match e with
  | Frame (Detected l) => String.length l <= m
  | _ => True
  end.

(** ** The confirmation sound (lines 29-42)

    [BASE_DIR] comes from [config], and [os.path.exists] asks the file
    system; both are parameters.  [os.path.join] is the one of
    [posixpath]. *)

(** [b.startswith('/')]. *)
Definition starts_with_sep (b : string) : bool :=
  match b with
  | String c _ => Ascii.eqb c "/"
  | EmptyString => false
  end.

(** [path.endswith('/')]. *)
Fixpoint ends_with_sep (path : string) : bool :=
  match path with
  | EmptyString => false
  | String c EmptyString => Ascii.eqb c "/"
  | String _ rest => ends_with_sep rest
  end.

(** [posixpath.join(path, b)]: an absolute [b] replaces [path]; otherwise
    [b] is appended, after a ["/"] unless [path] is empty or ends in one. *)
Definition path_join (path b : string) : string :=
  if starts_with_sep b then b
  else if String.eqb path "" || ends_with_sep path then (path ++ b)%string
  else (path ++ "/" ++ b)%string.

(** What the call does: it starts the playback of a file on a daemon
    thread, or it logs a warning. *)
Inductive SoundAction : Type :=
| PlaySound (sound_file : string)
| LogWarning (message : string).

Section Sound.
Variable BASE_DIR : string.
Variable path_exists : string -> bool.

Definition sound_dir : string := path_join BASE_DIR "audios".

(** [os.path.join(sound_dir, f"{prediction}.wav")]. *)
Definition sound_file (prediction : string) : string :=
  path_join sound_dir (prediction ++ ".wav")%string.

Definition play_sound_for_prediction (prediction : string) : SoundAction :=
  if path_exists (sound_file prediction)
  then PlaySound (sound_file prediction)
  else LogWarning ("Sound file for '" ++ prediction ++ "' not found.")%string.
End Sound.

(** * Properties *)

(** ** Facts about the primitives *)

Lemma differs_true (label : string) (last : option string) :
  last <> Some label -> differs label last = true.
Proof.
  destruct last as [p|]; simpl; [|reflexivity].
  intros Hne. destruct (String.eqb_spec label p) as [->|]; [|reflexivity].
  now elim Hne.
Qed.

Lemma differs_same (label : string) : differs label (Some label) = false.
Proof. simpl. now rewrite String.eqb_refl. Qed.

Lemma all_equal_repeat (label : string) (n : nat) :
  all_equal label (repeat label n) = true.
Proof.
  induction n as [|n IH]; simpl; [reflexivity|].
  now rewrite String.eqb_refl.
Qed.

Lemma truthy_nonempty (label : string) :
  label <> "" -> truthy (Some label) = true.
Proof.
  intros Hne. simpl. now destruct (String.eqb_spec label "").
Qed.

Lemma deque_append_room (d : list string) (x : string) :
  List.length d < HISTORY_MAXLEN -> deque_append HISTORY_MAXLEN d x = d ++ [x].
Proof.
  intros Hlt. unfold deque_append. rewrite length_app. simpl.
  destruct (Nat.ltb_spec HISTORY_MAXLEN (List.length d + 1)); [lia|reflexivity].
Qed.

Lemma deque_append_full (d : list string) (x : string) :
  List.length d = HISTORY_MAXLEN ->
  deque_append HISTORY_MAXLEN d x = tl d ++ [x].
Proof.
  intros Hlen. unfold deque_append. rewrite length_app. simpl.
  destruct (Nat.ltb_spec HISTORY_MAXLEN (List.length d + 1)); [|lia].
  destruct d; [discriminate|reflexivity].
Qed.

(** The history never holds more than five labels. *)
Lemma deque_append_bounded (d : list string) (x : string) :
  List.length d <= HISTORY_MAXLEN ->
  List.length (deque_append HISTORY_MAXLEN d x) <= HISTORY_MAXLEN.
Proof.
  intros Hle. unfold deque_append.
  destruct (Nat.ltb_spec HISTORY_MAXLEN (List.length (d ++ [x]))) as [Hlt|Hge];
    [|exact Hge].
  rewrite length_app in Hlt. simpl in Hlt.
  destruct d as [|a d]; simpl in *; [lia|].
  rewrite length_app. simpl. lia.
Qed.

Lemma substring_prefix (s t : string) :
  substring 0 (String.length s) (s ++ t)%string = s.
Proof.
  induction s as [|c s IH]; simpl.
  - now destruct t.
  - now rewrite IH.
Qed.

Lemma length_append (s t : string) :
  String.length (s ++ t)%string = String.length s + String.length t.
Proof. induction s as [|c s IH]; simpl; [reflexivity|now rewrite IH]. Qed.

Lemma drop_last_snoc (s : string) (c : ascii) :
  drop_last (s ++ String c "")%string = s.
Proof.
  unfold drop_last. rewrite length_append. simpl.
  replace (String.length s + 1 - 1) with (String.length s) by lia.
  apply substring_prefix.
Qed.

Lemma drop_last_empty : drop_last "" = "".
Proof. reflexivity. Qed.

Lemma drop_last_length (s : string) :
  String.length (drop_last s) = String.length s - 1.
Proof.
  unfold drop_last.
  assert (H : forall n t, n <= String.length t ->
                          String.length (substring 0 n t) = n).
  { induction n as [|n IH]; intros [|c t] Hn; simpl in *;
      try reflexivity; try lia.
    now rewrite IH by lia. }
  apply H. lia.
Qed.

(** ** Facts about one frame *)

(** While fewer than four labels are stored, a detected label is only
    recorded. *)
Lemma process_frame_accumulates (st : State) (label : string) :
  List.length (prediction_history st) < 4 ->
  process_frame st (Detected label) =
    (mkState (prediction_history st ++ [label]) (last_prediction st)
             (sentence st) "", None).
Proof.
  intros Hlt. unfold process_frame. cbn [set_error prediction_history].
  rewrite deque_append_room by (unfold HISTORY_MAXLEN; lia).
  replace (List.length (prediction_history st ++ [label]) =? 5) with false.
  - reflexivity.
  - symmetry. apply Nat.eqb_neq. rewrite length_app. simpl. lia.
Qed.

(** The fifth equal label confirms, provided it is not the last confirmed
    one. *)
Lemma process_frame_confirms (st : State) (label : string) :
  prediction_history st = repeat label 4 ->
  differs label (last_prediction st) = true ->
  process_frame st (Detected label) =
    (mkState [] (Some label) (sentence st) "", Some label).
Proof.
  intros Hh Hd. unfold process_frame. cbn [set_error prediction_history].
  rewrite Hh, deque_append_room by (simpl; unfold HISTORY_MAXLEN; lia).
  change (repeat label 4 ++ [label]) with (repeat label 5).
  rewrite all_equal_repeat.
  cbn [set_error set_history set_last prediction_history last_prediction
       sentence error_message].
  rewrite Hd. reflexivity.
Qed.

(** A label equal to the last confirmed one never confirms. *)
Lemma process_frame_same_label (st : State) (label : string) :
  last_prediction st = Some label ->
  snd (process_frame st (Detected label)) = None /\
  last_prediction (fst (process_frame st (Detected label))) = Some label.
Proof.
  intros Hl. unfold process_frame.
  cbn [set_error set_history prediction_history last_prediction].
  rewrite Hl, differs_same, andb_false_r. cbn. now split.
Qed.

(** Only a confirming frame changes the last confirmed label. *)
Lemma process_frame_silent_keeps_last (st : State) (r : FrameResult) :
  snd (process_frame st r) = None ->
  last_prediction (fst (process_frame st r)) = last_prediction st.
Proof.
  destruct r as [| |label]; cbn; try reflexivity.
  destruct (_ && _ && _); cbn; [discriminate|reflexivity].
Qed.

(** No frame touches the sentence. *)
Lemma process_frame_sentence (st : State) (r : FrameResult) :
  sentence (fst (process_frame st r)) = sentence st.
Proof.
  destruct r as [| |label]; cbn; try reflexivity.
  now destruct (_ && _ && _).
Qed.

(** A confirming frame leaves the history empty and records its label. *)
Lemma process_frame_confirmed_state (st st' : State) (l l' : string) :
  process_frame st (Detected l) = (st', Some l') ->
  l' = l /\ prediction_history st' = [] /\ last_prediction st' = Some l /\
  sentence st' = sentence st.
Proof.
  unfold process_frame. destruct (_ && _ && _); intros Heq;
    inversion Heq; subst. now cbn.
Qed.

(** ** Facts about one key *)

Lemma handle_key_accept (st : State) (p : string) :
  String.length (sentence st) < MAX_SENTENCE_LENGTH ->
  last_prediction st = Some p -> p <> "" ->
  handle_key st AcceptSymbol =
    (mkState [] None (sentence st ++ p)%string (error_message st), Continue).
Proof.
  intros Hlen Hlast Hp. unfold handle_key, AcceptSymbol.
  rewrite Z.eqb_refl.
  destruct (Nat.ltb_spec (String.length (sentence st)) MAX_SENTENCE_LENGTH);
    [|lia].
  rewrite Hlast, truthy_nonempty by exact Hp. reflexivity.
Qed.

(** Every key but the accepting one keeps the last confirmed label. *)
Lemma handle_key_keeps_last (st : State) (k : Z) :
  k <> AcceptSymbol ->
  last_prediction (fst (handle_key st k)) = last_prediction st.
Proof.
  intros Hk. unfold handle_key.
  destruct (Z.eqb_spec k (ord " ")) as [Heq|_]; [now elim Hk|].
  repeat match goal with
         | |- context [if ?b then _ else _] => destruct b
         end; reflexivity.
Qed.

(** ** Facts about traces *)

Lemma run_frame (st : State) (r : FrameResult) (es : list Event) :
  run st (Frame r :: es) =
    (fst (run (fst (process_frame st r)) es),
     snd (process_frame st r) :: snd (run (fst (process_frame st r)) es)).
Proof.
  cbn [run step]. destruct (process_frame st r) as [st' played].
  cbn [fst snd]. now destruct (run st' es).
Qed.

Lemma run_key_continue (st st' : State) (k : Z) (es : list Event) :
  handle_key st k = (st', Continue) ->
  run st (Key k :: es) = (fst (run st' es), None :: snd (run st' es)).
Proof.
  intros Hk. cbn [run step]. rewrite Hk. now destruct (run st' es).
Qed.

Lemma run_key_break (st st' : State) (k : Z) (es : list Event) :
  handle_key st k = (st', Break) -> run st (Key k :: es) = (st', [None]).
Proof. intros Hk. cbn [run step]. now rewrite Hk. Qed.

(** Five equal labels on an empty history, differing from the last
    confirmed label: silence four times, then the confirmation. *)
Lemma run_five_then (st : State) (label : string) (es : list Event) :
  prediction_history st = [] ->
  differs label (last_prediction st) = true ->
  run st (detected_run 5 label ++ es) =
    (fst (run (mkState [] (Some label) (sentence st) "") es),
     [None; None; None; None; Some label]
       ++ snd (run (mkState [] (Some label) (sentence st) "") es)).
Proof.
  intros Hh Hd. unfold detected_run. cbn [repeat app].
  rewrite run_frame, process_frame_accumulates by (rewrite Hh; simpl; lia).
  cbn [fst snd]. rewrite Hh. cbn [app].
  rewrite run_frame, process_frame_accumulates by (simpl; lia).
  cbn [fst snd prediction_history last_prediction sentence app].
  rewrite run_frame, process_frame_accumulates by (simpl; lia).
  cbn [fst snd prediction_history last_prediction sentence app].
  rewrite run_frame, process_frame_accumulates by (simpl; lia).
  cbn [fst snd prediction_history last_prediction sentence app].
  rewrite run_frame, process_frame_confirms by (try reflexivity; exact Hd).
  reflexivity.
Qed.

Lemma step_keeps_confirmed (st : State) (label : string) (e : Event) :
  last_prediction st = Some label -> keeps_confirmed label e ->
  snd (fst (step st e)) = None /\
  last_prediction (fst (fst (step st e))) = Some label.
Proof.
  intros Hl He. destruct e as [[| |l]|k]; cbn in He.
  - cbn. now split.
  - cbn. now split.
  - subst l. cbn [step].
    destruct (process_frame_same_label st label Hl) as [Hs Hk].
    destruct (process_frame st (Detected label)) as [st' played].
    cbn in *. now split.
  - cbn [step]. pose proof (handle_key_keeps_last st k He) as Hk.
    destruct (handle_key st k) as [st' flow]. cbn in *.
    split; [reflexivity|congruence].
Qed.

Lemma run_keeps_confirmed (label : string) (es : list Event) :
  Forall (keeps_confirmed label) es ->
  forall st, last_prediction st = Some label ->
  confirmations (snd (run st es)) = [] /\
  last_prediction (fst (run st es)) = Some label.
Proof.
  induction 1 as [|e es He _ IH]; intros st Hl.
  - cbn. now split.
  - destruct (step_keeps_confirmed st label e Hl He) as [Hs Hk].
    cbn [run]. destruct (step st e) as [[st' played] flow].
    cbn in Hs, Hk. subst played.
    destruct flow.
    + destruct (IH st' Hk) as [Hc Hf].
      destruct (run st' es) as [st'' rest]. cbn in *. now split.
    + cbn. now split.
Qed.

(** ** The confirmation rule *)

(** C1.  On an empty history and with a last confirmed label other than
    [L], five consecutive frames that detect [L] fire exactly one
    confirmation: the first four frames are silent, the fifth confirms
    [L]; afterwards the last confirmed label is [L] and the history is
    empty. *)
Theorem five_identical_labels_confirm_once (st : State) (L : string) :
  prediction_history st = [] ->
  last_prediction st <> Some L ->
  snd (run st (detected_run 5 L)) = [None; None; None; None; Some L] /\
  confirmations (snd (run st (detected_run 5 L))) = [L] /\
  last_prediction (fst (run st (detected_run 5 L))) = Some L /\
  prediction_history (fst (run st (detected_run 5 L))) = [].
Proof.
  intros Hh Hl.
  rewrite <- (app_nil_r (detected_run 5 L)).
  rewrite run_five_then by (try apply differs_true; assumption).
  cbn. repeat split; reflexivity.
Qed.

Lemma five_identical_labels_confirm_once_witness :
  snd (run initial_state (detected_run 5 "A"))
    = [None; None; None; None; Some "A"] /\
  confirmations (snd (run initial_state (detected_run 5 "A"))) = ["A"] /\
  last_prediction (fst (run initial_state (detected_run 5 "A"))) = Some "A" /\
  prediction_history (fst (run initial_state (detected_run 5 "A"))) = [].
Proof.
  apply (five_identical_labels_confirm_once initial_state "A").
  - reflexivity.
  - discriminate.
Defined.

(** C2, as the code has it.  A frame without a hand changes nothing: the
    state, and the history with it, is the one before the frame, and no
    confirmation fires.  The history is empty afterwards exactly when it
    was empty before. *)
Theorem no_detection_keeps_history (st : State) :
  process_frame st NoDetection = (st, None) /\
  prediction_history (fst (process_frame st NoDetection))
    = prediction_history st /\
  (prediction_history (fst (process_frame st NoDetection)) = [] <->
   prediction_history st = []).
Proof. cbn. repeat split; trivial. Qed.

(** C2 does not hold of the code: after one detected label, a frame
    without a hand leaves that label in the history. *)
Lemma no_detection_does_not_clear_history :
  prediction_history
    (fst (run initial_state [Frame (Detected "A"); Frame NoDetection]))
    = ["A"] /\
  prediction_history
    (fst (run initial_state [Frame (Detected "A"); Frame NoDetection]))
    <> [].
Proof. split; [reflexivity|discriminate]. Qed.

(** C3, as the code has it.  Once [L] is confirmed, a single frame of a
    different label [L'] does not re-enable [L]: the five frames of [L]
    that follow it are silent and [L] stays the last confirmed label.
    When [L'] is itself confirmed by five frames, the five frames of [L]
    that follow confirm [L] a second time. *)
Theorem reconfirmation_needs_confirmed_label
  (st st0 : State) (L L' : string) :
  process_frame st (Detected L) = (st0, Some L) ->
  L' <> L ->
  (snd (run st0 (Frame (Detected L') :: detected_run 5 L)) = repeat None 6 /\
   last_prediction (fst (run st0 (Frame (Detected L') :: detected_run 5 L)))
     = Some L) /\
  confirmations (snd (run st0 (detected_run 5 L' ++ detected_run 5 L)))
    = [L'; L].
Proof.
  intros Hc Hne.
  destruct (process_frame_confirmed_state _ _ _ _ Hc) as (_ & Hh & Hl & _).
  split.
  - rewrite run_frame, process_frame_accumulates by (rewrite Hh; simpl; lia).
    cbn [fst snd].
    set (st1 := mkState _ _ _ _).
    assert (Hl1 : last_prediction st1 = Some L) by exact Hl.
    assert (Hq : Forall (keeps_confirmed L) (detected_run 5 L))
      by (repeat constructor).
    destruct (run_keeps_confirmed L _ Hq st1 Hl1) as [Hs Hk].
    split; [|exact Hk].
    assert (Hlen : List.length (snd (run st1 (detected_run 5 L))) = 5).
    { unfold detected_run. cbn [repeat]. repeat rewrite run_frame.
      reflexivity. }
    revert Hs Hlen. generalize (snd (run st1 (detected_run 5 L))).
    intros out Hs Hlen.
    do 6 (destruct out as [|[?|] out]; try discriminate).
    reflexivity.
  - rewrite run_five_then
      by (try exact Hh; rewrite Hl; apply differs_true; congruence).
    rewrite <- (app_nil_r (detected_run 5 L)).
    rewrite run_five_then
      by (try reflexivity; apply differs_true; cbn; congruence).
    reflexivity.
Qed.

Lemma reconfirmation_needs_confirmed_label_witness :
  (snd (run (mkState [] (Some "A") "" "")
            (Frame (Detected "B") :: detected_run 5 "A")) = repeat None 6 /\
   last_prediction
     (fst (run (mkState [] (Some "A") "" "")
               (Frame (Detected "B") :: detected_run 5 "A"))) = Some "A") /\
  confirmations
    (snd (run (mkState [] (Some "A") "" "")
              (detected_run 5 "B" ++ detected_run 5 "A"))) = ["B"; "A"].
Proof.
  apply (reconfirmation_needs_confirmed_label
           (mkState ["A"; "A"; "A"; "A"] None "" "")
           (mkState [] (Some "A") "" "") "A" "B").
  - reflexivity.
  - discriminate.
Defined.

(** C3 does not hold of the code: ["A"] is confirmed, one frame of ["B"]
    follows without being confirmed, and the five frames of ["A"] after
    it fire no confirmation at all. *)
Lemma single_different_label_does_not_reenable :
  snd (run initial_state
           (detected_run 5 "A" ++ Frame (Detected "B") :: detected_run 5 "A"))
    = [None; None; None; None; Some "A";
       None;
       None; None; None; None; None] /\
  confirmations
    (snd (run initial_state
              (detected_run 5 "A" ++ Frame (Detected "B")
                 :: detected_run 5 "A")))
    = ["A"].
Proof. split; reflexivity. Qed.

(** C4.  While [L] is the last confirmed label, a trace segment without
    a frame that detects another label and without the accepting key
    fires no confirmation, whatever else it holds (further runs of [L],
    frames without a hand, mismatches, other keys), and [L] stays the last
    confirmed label. *)
Theorem confirmed_label_not_reconfirmed
  (st : State) (L : string) (es : list Event) :
  last_prediction st = Some L ->
  Forall (keeps_confirmed L) es ->
  confirmations (snd (run st es)) = [] /\
  ~ In (Some L) (snd (run st es)) /\
  last_prediction (fst (run st es)) = Some L.
Proof.
  intros Hl Hq.
  destruct (run_keeps_confirmed L es Hq st Hl) as [Hc Hk].
  repeat split; try assumption.
  intros Hin. revert Hc Hin. generalize (snd (run st es)).
  induction l as [|[x|] l IH]; cbn; intros Hc Hin.
  - exact Hin.
  - discriminate.
  - destruct Hin as [Hin|Hin]; [discriminate|now apply IH].
Qed.

Lemma confirmed_label_not_reconfirmed_witness :
  let st := fst (run initial_state (detected_run 5 "A")) in
  let es := detected_run 5 "A" ++ [Frame NoDetection; Key AppendSpace]
              ++ detected_run 5 "A" in
  confirmations (snd (run st es)) = [] /\
  ~ In (Some "A") (snd (run st es)) /\
  last_prediction (fst (run st es)) = Some "A".
Proof.
  apply (confirmed_label_not_reconfirmed
           (fst (run initial_state (detected_run 5 "A"))) "A").
  - reflexivity.
  - repeat constructor; discriminate.
Defined.

(** ** The loop and its traces *)

Lemma handle_key_flow (st : State) (k : Z) :
  snd (handle_key st k) = if is_quit k then Break else Continue.
Proof.
  unfold handle_key.
  destruct (Z.eqb_spec k (ord " ")) as [->|_].
  { change (is_quit (ord " ")) with false.
    destruct (_ <? _); [|reflexivity].
    destruct (last_prediction st) as [p|]; [|reflexivity].
    now destruct (truthy _). }
  destruct (Z.eqb_spec k (ord "s")) as [->|_].
  { change (is_quit (ord "s")) with false. cbn [orb].
    now destruct (_ <? _). }
  destruct (Z.eqb_spec k (ord "S")) as [->|_].
  { change (is_quit (ord "S")) with false. cbn [orb].
    now destruct (_ <? _). }
  destruct (Z.eqb_spec k (ord "b")) as [->|_]; [reflexivity|].
  destruct (Z.eqb_spec k (ord "B")) as [->|_]; [reflexivity|].
  unfold is_quit. cbn [orb]. now destruct (_ || _)%bool.
Qed.

(** A run of the loop whose iterations are all live is the run of the
    state machine over its events: same final state, same confirmations. *)
Lemma run_loop_as_events (inputs : list Input) :
  Forall live inputs ->
  forall st,
    fst (run_loop st inputs) = fst (run st (flat_map events_of inputs)) /\
    confirmations (snd (run_loop st inputs))
      = confirmations (snd (run st (flat_map events_of inputs))).
Proof.
  induction 1 as [|i inputs [Hr Hv] _ IH]; intros st; [now split|].
  cbn [run_loop flat_map]. unfold loop_iteration, events_of.
  destruct (cap_read i) as [r|]; [clear Hr|now elim Hr].
  rewrite Hv. cbn [app]. rewrite run_frame.
  destruct (process_frame st r) as [st1 played]. cbn [fst snd].
  destruct (handle_key st1 (Z.land (wait_key i) 255)) as [st2 flow] eqn:Hk.
  destruct flow.
  - rewrite (run_key_continue _ _ _ _ Hk). cbn [fst snd].
    destruct (IH st2) as [IHs IHc].
    destruct (run_loop st2 inputs) as [st3 rest]. cbn [fst snd] in *.
    split; [exact IHs|].
    destruct played; cbn [confirmations]; now rewrite IHc.
  - rewrite (run_key_break _ _ _ _ Hk). cbn [fst snd].
    split; [reflexivity|]. now destruct played.
Qed.

(** ** The sentence *)

(** Where the bound of 30 does hold: no frame touches the sentence, and a
    key keeps it within 30 characters as long as the label waiting to be
    accepted has at most one character. *)
Lemma step_sentence_bound (st : State) (e : Event) :
  String.length (sentence st) <= MAX_SENTENCE_LENGTH ->
  (forall p, last_prediction st = Some p -> String.length p <= 1) ->
  String.length (sentence (fst (fst (step st e)))) <= MAX_SENTENCE_LENGTH.
Proof.
  intros Hlen Hp. destruct e as [r|k]; cbn [step].
  - pose proof (process_frame_sentence st r) as Hs.
    destruct (process_frame st r). cbn in *. now rewrite Hs.
  - unfold handle_key.
    destruct (Z.eqb_spec k (ord " ")) as [_|_].
    + destruct (Nat.ltb_spec (String.length (sentence st))
                             MAX_SENTENCE_LENGTH) as [Hlt|_];
        [|exact Hlen].
      destruct (last_prediction st) as [p|] eqn:Hl; [|exact Hlen].
      destruct (truthy (Some p)); [|exact Hlen].
      cbn. rewrite length_append. specialize (Hp p eq_refl).
      unfold MAX_SENTENCE_LENGTH in *. lia.
    + destruct (_ || _)%bool.
      * destruct (Nat.ltb_spec (String.length (sentence st))
                               MAX_SENTENCE_LENGTH) as [Hlt|_];
          [|exact Hlen].
        cbn. rewrite length_append. cbn.
        unfold MAX_SENTENCE_LENGTH in *. lia.
      * destruct (_ || _)%bool.
        -- cbn. rewrite drop_last_length. lia.
        -- now destruct (_ || _)%bool.
Qed.

(** C5 (the code breaks it).  The guard of the accepting key only asks
    for room for one character and then appends the whole label: after
    29 spaces and the confirmation of the two-character label ["AB"], the
    accepting key takes the sentence from 29 to 31 characters. *)
Theorem sentence_bound_broken_by_long_label :
  let fill := repeat (Key AppendSpace) 29 ++ detected_run 5 "AB" in
  String.length (sentence initial_state) <= MAX_SENTENCE_LENGTH /\
  String.length (sentence (fst (run initial_state fill))) = 29 /\
  last_prediction (fst (run initial_state fill)) = Some "AB" /\
  String.length
    (sentence (fst (run initial_state (fill ++ [Key AcceptSymbol])))) = 31 /\
  ~ String.length
      (sentence (fst (run initial_state (fill ++ [Key AcceptSymbol]))))
    <= MAX_SENTENCE_LENGTH.
Proof.
  cbv zeta. repeat split; try reflexivity.
  - apply Nat.le_0_l.
  - vm_compute. lia.
Qed.

(** C10.  With a non-empty last confirmed label [L] and fewer than 30
    characters in the sentence, one accepting key appends all of [L]: the
    sentence grows by the length of [L], which is more than one character
    when [L] has more than one. *)
Theorem accept_appends_whole_label (st : State) (L : string) :
  last_prediction st = Some L ->
  L <> "" ->
  String.length (sentence st) < MAX_SENTENCE_LENGTH ->
  sentence (fst (handle_key st AcceptSymbol)) = (sentence st ++ L)%string /\
  String.length (sentence (fst (handle_key st AcceptSymbol)))
    = String.length (sentence st) + String.length L /\
  (1 < String.length L ->
   String.length (sentence st) + 1
     < String.length (sentence (fst (handle_key st AcceptSymbol)))).
Proof.
  intros Hl Hne Hlen. rewrite (handle_key_accept st L Hlen Hl Hne).
  cbn [fst sentence]. rewrite length_append.
  repeat split; try reflexivity. lia.
Qed.

Lemma accept_appends_whole_label_witness :
  let st := mkState [] (Some "AB") "HELLO" "" in
  sentence (fst (handle_key st AcceptSymbol)) = "HELLOAB" /\
  String.length (sentence (fst (handle_key st AcceptSymbol))) = 5 + 2 /\
  (1 < 2 -> 5 + 1 < String.length (sentence (fst (handle_key st AcceptSymbol)))).
Proof.
  apply (accept_appends_whole_label (mkState [] (Some "AB") "HELLO" "") "AB").
  - reflexivity.
  - discriminate.
  - unfold MAX_SENTENCE_LENGTH. simpl. lia.
Defined.

(** C6, as the code has it.  With a non-empty last confirmed label [L]
    and fewer than 30 characters in the sentence, the accepting key
    appends [L] to the sentence, resets the last confirmed label to none,
    empties the history and keeps the error message. *)
Theorem accept_symbol_moves_label_to_sentence (st : State) (L : string) :
  last_prediction st = Some L ->
  L <> "" ->
  String.length (sentence st) < MAX_SENTENCE_LENGTH ->
  sentence (fst (handle_key st AcceptSymbol)) = (sentence st ++ L)%string /\
  last_prediction (fst (handle_key st AcceptSymbol)) = None /\
  prediction_history (fst (handle_key st AcceptSymbol)) = [] /\
  error_message (fst (handle_key st AcceptSymbol)) = error_message st /\
  snd (handle_key st AcceptSymbol) = Continue.
Proof.
  intros Hl Hne Hlen. rewrite (handle_key_accept st L Hlen Hl Hne).
  cbn. repeat split; reflexivity.
Qed.

(** The scenario of C6: ["A"] confirmed from five frames, then accepted. *)
Lemma accept_symbol_moves_label_to_sentence_witness :
  let st := fst (run initial_state (detected_run 5 "A")) in
  sentence (fst (handle_key st AcceptSymbol)) = "A" /\
  last_prediction (fst (handle_key st AcceptSymbol)) = None /\
  prediction_history (fst (handle_key st AcceptSymbol)) = [] /\
  error_message (fst (handle_key st AcceptSymbol)) = "" /\
  snd (handle_key st AcceptSymbol) = Continue.
Proof.
  apply (accept_symbol_moves_label_to_sentence
           (fst (run initial_state (detected_run 5 "A"))) "A").
  - reflexivity.
  - discriminate.
  - unfold MAX_SENTENCE_LENGTH. simpl. lia.
Defined.

(** C6 does not hold of the code for the empty label, which
    [if last_prediction:] takes for no label: once the empty label is
    confirmed and ["A"] detected, the accepting key leaves the last
    confirmed label set and the history filled. *)
Lemma accept_symbol_ignores_empty_label :
  let st := fst (run initial_state
                     (detected_run 5 "" ++ [Frame (Detected "A")])) in
  last_prediction st = Some "" /\
  String.length (sentence st) < MAX_SENTENCE_LENGTH /\
  last_prediction (fst (handle_key st AcceptSymbol)) = Some "" /\
  last_prediction (fst (handle_key st AcceptSymbol)) <> None /\
  prediction_history (fst (handle_key st AcceptSymbol)) = ["A"] /\
  prediction_history (fst (handle_key st AcceptSymbol)) <> [].
Proof.
  cbv zeta. repeat split; try reflexivity; try discriminate.
  unfold MAX_SENTENCE_LENGTH. simpl. lia.
Qed.

(** C7.  With exactly 30 characters in the sentence, the accepting key
    and the space key ([s] or [S]) leave the sentence as it is and set
    the error message to a non-empty text; the loop goes on. *)
Theorem full_sentence_rejects_append (st : State) (k : Z) :
  String.length (sentence st) = MAX_SENTENCE_LENGTH ->
  k = AcceptSymbol \/ k = AppendSpace \/ k = AppendSpaceUpper ->
  sentence (fst (handle_key st k)) = sentence st /\
  error_message (fst (handle_key st k)) = LIMIT_ERROR /\
  error_message (fst (handle_key st k)) <> "" /\
  snd (handle_key st k) = Continue.
Proof.
  intros Hlen Hk. unfold handle_key.
  assert (Hfull : (String.length (sentence st) <? MAX_SENTENCE_LENGTH)
                  = false) by (apply Nat.ltb_ge; lia).
  destruct Hk as [->|[->| ->]].
  - change (AcceptSymbol =? ord " ")%Z with true. cbv iota.
    rewrite Hfull. cbn. repeat split; discriminate || reflexivity.
  - change (AppendSpace =? ord " ")%Z with false.
    change (AppendSpace =? ord "s")%Z with true. cbn [orb]. cbv iota.
    rewrite Hfull. cbn. repeat split; discriminate || reflexivity.
  - change (AppendSpaceUpper =? ord " ")%Z with false.
    change (AppendSpaceUpper =? ord "s")%Z with false.
    change (AppendSpaceUpper =? ord "S")%Z with true. cbn [orb]. cbv iota.
    rewrite Hfull. cbn. repeat split; discriminate || reflexivity.
Qed.

Lemma full_sentence_rejects_append_witness :
  let st := mkState [] (Some "A") "ABCDEFGHIJKLMNOPQRSTUVWXYZ ABC" "" in
  (sentence (fst (handle_key st AcceptSymbol)) = sentence st /\
   error_message (fst (handle_key st AcceptSymbol)) = LIMIT_ERROR /\
   error_message (fst (handle_key st AcceptSymbol)) <> "" /\
   snd (handle_key st AcceptSymbol) = Continue) /\
  (sentence (fst (handle_key st AppendSpace)) = sentence st /\
   error_message (fst (handle_key st AppendSpace)) = LIMIT_ERROR /\
   error_message (fst (handle_key st AppendSpace)) <> "" /\
   snd (handle_key st AppendSpace) = Continue).
Proof.
  split.
  - apply (full_sentence_rejects_append
             (mkState [] (Some "A") "ABCDEFGHIJKLMNOPQRSTUVWXYZ ABC" "")
             AcceptSymbol).
    + reflexivity.
    + left. reflexivity.
  - apply (full_sentence_rejects_append
             (mkState [] (Some "A") "ABCDEFGHIJKLMNOPQRSTUVWXYZ ABC" "")
             AppendSpace).
    + reflexivity.
    + right. left. reflexivity.
Defined.

(** C9.  The delete key ([b] or [B]) removes exactly the last character
    of a non-empty sentence, leaves an empty sentence empty, and in both
    cases leaves the error message empty. *)
Theorem delete_last_removes_last_character (st : State) (k : Z) :
  k = DeleteLast \/ k = DeleteLastUpper ->
  (forall s c, sentence st = (s ++ String c "")%string ->
               sentence (fst (handle_key st k)) = s) /\
  (sentence st = "" -> sentence (fst (handle_key st k)) = "") /\
  String.length (sentence (fst (handle_key st k)))
    = String.length (sentence st) - 1 /\
  error_message (fst (handle_key st k)) = "" /\
  snd (handle_key st k) = Continue.
Proof.
  intros Hk.
  assert (Heq : handle_key st k =
                (set_error (set_sentence st (drop_last (sentence st))) "",
                 Continue))
    by (destruct Hk as [->| ->]; reflexivity).
  rewrite Heq. cbn [fst snd set_error set_sentence sentence error_message].
  repeat split.
  - intros s c Hs. rewrite Hs. apply drop_last_snoc.
  - intros Hs. rewrite Hs. reflexivity.
  - apply drop_last_length.
Qed.

Lemma delete_last_removes_last_character_witness :
  let st := mkState [] None "HELLO" LIMIT_ERROR in
  (sentence (fst (handle_key st DeleteLast)) = "HELL" /\
   error_message (fst (handle_key st DeleteLast)) = "") /\
  (sentence (fst (handle_key initial_state DeleteLastUpper)) = "" /\
   error_message (fst (handle_key initial_state DeleteLastUpper)) = "").
Proof.
  split.
  - destruct (delete_last_removes_last_character
                (mkState [] None "HELLO" LIMIT_ERROR) DeleteLast
                (or_introl eq_refl)) as (Hsnoc & _ & _ & Herr & _).
    split; [|exact Herr].
    apply (Hsnoc "HELL" "O"%char). reflexivity.
  - destruct (delete_last_removes_last_character
                initial_state DeleteLastUpper
                (or_intror eq_refl)) as (_ & Hempty & _ & Herr & _).
    split; [|exact Herr].
    apply Hempty. reflexivity.
Defined.

(** ** Frames that yield no label *)

(** A lone hand gives three features per landmark, and further hands add
    theirs to the same vector. *)
Lemma add_hand_count (Coord : Type) (csub cmin : Coord -> Coord -> Coord)
      (b : Buffers Coord) (hand : list (Landmark Coord)) (n : nat) :
  List.length (x_coords Coord b) = n ->
  List.length (y_coords Coord b) = n ->
  List.length (z_coords Coord b) = n ->
  0 < n + List.length hand ->
  exists b',
    add_hand Coord csub cmin b hand = Some b' /\
    List.length (data_aux Coord b')
      = List.length (data_aux Coord b) + 3 * List.length hand /\
    List.length (x_coords Coord b') = n + List.length hand /\
    List.length (y_coords Coord b') = n + List.length hand /\
    List.length (z_coords Coord b') = n + List.length hand.
Proof.
  intros Hx Hy Hz Hpos. unfold add_hand.
  assert (Hmin : forall xs : list Coord,
             0 < List.length xs -> exists m, py_min Coord cmin xs = Some m).
  { intros [|a r] Hl; [simpl in Hl; lia|]. eexists. reflexivity. }
  destruct (Hmin (x_coords Coord b ++ map (lm_x Coord) hand)) as [mx ->];
    [rewrite length_app, length_map; lia|].
  destruct (Hmin (y_coords Coord b ++ map (lm_y Coord) hand)) as [my ->];
    [rewrite length_app, length_map; lia|].
  destruct (Hmin (z_coords Coord b ++ map (lm_z Coord) hand)) as [mz ->];
    [rewrite length_app, length_map; lia|].
  eexists. split; [reflexivity|]. cbn.
  repeat rewrite length_app. repeat rewrite length_map.
  repeat split; try lia.
  f_equal. clear. induction hand as [|lm hand IH]; cbn; [reflexivity|].
  rewrite IH. lia.
Qed.

Lemma add_hands_count (Coord : Type) (csub cmin : Coord -> Coord -> Coord)
      (hands : list (list (Landmark Coord))) :
  Forall (fun hand => hand <> []) hands ->
  forall (b : Buffers Coord) (n : nat),
    List.length (x_coords Coord b) = n ->
    List.length (y_coords Coord b) = n ->
    List.length (z_coords Coord b) = n ->
    exists b',
      add_hands Coord csub cmin b hands = Some b' /\
      List.length (data_aux Coord b')
        = List.length (data_aux Coord b) + 3 * List.length (List.concat hands).
Proof.
  induction 1 as [|hand hands Hne _ IH]; intros b n Hx Hy Hz.
  - exists b. split; [reflexivity|]. cbn. lia.
  - assert (Hpos : 0 < n + List.length hand)
      by (destruct hand; [now elim Hne|simpl; lia]).
    destruct (add_hand_count Coord csub cmin b hand n Hx Hy Hz Hpos)
      as (b1 & Hb1 & Hd & Hx1 & Hy1 & Hz1).
    destruct (IH b1 _ Hx1 Hy1 Hz1) as (b2 & Hb2 & Hd2).
    exists b2. cbn [add_hands]. rewrite Hb1. split; [exact Hb2|].
    rewrite Hd2, Hd. cbn [List.concat]. rewrite length_app. lia.
Qed.

(** Hands whose landmarks do not add up to the size the classifier
    expects make the frame a mismatch; two hands of 21 landmarks against a
    classifier trained on one are the usual case. *)
Lemma classify_frame_mismatch
      (Coord : Type) (csub cmin : Coord -> Coord -> Coord)
      (n_features_in_ : nat) (predict : list Coord -> string)
      (hands : list (list (Landmark Coord))) :
  hands <> [] ->
  Forall (fun hand => hand <> []) hands ->
  3 * List.length (List.concat hands) <> n_features_in_ ->
  classify_frame Coord csub cmin n_features_in_ predict hands
    = Some FeatureMismatch.
Proof.
  intros Hne Hall Hcount. unfold classify_frame.
  destruct hands as [|hand hands]; [now elim Hne|].
  destruct (add_hands_count Coord csub cmin (hand :: hands) Hall
              (empty_buffers Coord) 0 eq_refl eq_refl eq_refl)
    as (b & -> & Hd).
  cbn [data_aux empty_buffers List.length Nat.add] in Hd.
  destruct (Nat.eqb_spec (List.length (data_aux Coord b)) n_features_in_);
    [lia|reflexivity].
Qed.

(** C8.  Whatever the history holds, a mismatch frame empties it and
    sets the mismatch text, which is not empty, as the error message;
    the last confirmed label and the sentence stay, no confirmation
    fires, and the iteration ends the loop only on the quit key or a
    closed window: with no key pressed and the window open the loop goes
    on. *)
Theorem feature_mismatch_clears_history
  (st : State) (k : Z) (visible : bool) :
  process_frame st FeatureMismatch
    = (mkState [] (last_prediction st) (sentence st) MISMATCH_ERROR, None) /\
  prediction_history (fst (process_frame st FeatureMismatch)) = [] /\
  error_message (fst (process_frame st FeatureMismatch)) = MISMATCH_ERROR /\
  MISMATCH_ERROR <> "" /\
  snd (loop_iteration st (mkInput (Some FeatureMismatch) k visible))
    = (if is_quit (Z.land k 255) then Break
       else if visible then Continue else Break) /\
  loop_iteration st (mkInput (Some FeatureMismatch) (-1) true)
    = (mkState [] (last_prediction st) (sentence st) MISMATCH_ERROR,
       None, Continue).
Proof.
  repeat split; try reflexivity; try discriminate.
  unfold loop_iteration. cbn [cap_read wait_key window_visible].
  destruct (process_frame st FeatureMismatch) as [st1 played].
  pose proof (handle_key_flow st1 (Z.land k 255)) as Hf.
  destruct (handle_key st1 (Z.land k 255)) as [st2 flow].
  cbn [snd] in Hf. subst flow.
  now destruct (is_quit (Z.land k 255)).
Qed.

(** * Further properties of the loop *)

(** ** When a frame confirms *)

Lemma differs_iff (label : string) (last : option string) :
  differs label last = true <-> last <> Some label.
Proof.
  split; [|apply differs_true].
  intros Hd Heq. subst last. rewrite differs_same in Hd. discriminate.
Qed.

Lemma all_equal_iff (label : string) (d : list string) :
  all_equal label d = true <-> d = repeat label (List.length d).
Proof.
  induction d as [|a d IH]; cbn; [now split|].
  rewrite andb_true_iff, IH, String.eqb_eq. split.
  - intros [-> Hd]. now rewrite <- Hd.
  - intros Heq. inversion Heq as [[Ha Hd]]. now rewrite <- Hd.
Qed.

(** The history after [append] has five entries, all equal to the label,
    exactly when the four entries before it were that label, preceded by
    at most one entry that [append] then evicts. *)
Lemma deque_append_unanimous (d : list string) (label : string) :
  (List.length (deque_append HISTORY_MAXLEN d label) =? 5)
  && all_equal label (deque_append HISTORY_MAXLEN d label) = true <->
  d = repeat label 4 \/ exists a, d = a :: repeat label 4.
Proof.
  rewrite andb_true_iff, Nat.eqb_eq. split.
  - intros [Hlen Hall]. apply all_equal_iff in Hall. rewrite Hlen in Hall.
    destruct (Nat.lt_ge_cases (List.length d) HISTORY_MAXLEN) as [Hlt|Hge].
    + rewrite deque_append_room in Hall, Hlen by exact Hlt.
      left. change (repeat label 5) with (repeat label 4 ++ [label]) in Hall.
      now apply app_inj_tail in Hall.
    + unfold deque_append in Hall, Hlen.
      destruct (Nat.ltb_spec HISTORY_MAXLEN (List.length (d ++ [label])))
        as [_|Hle]; [|rewrite length_app in Hle; simpl in Hle; lia].
      destruct d as [|a d]; [simpl in Hge; unfold HISTORY_MAXLEN in Hge; lia|].
      cbn [app tl] in Hall. right. exists a. f_equal.
      change (repeat label 5) with (repeat label 4 ++ [label]) in Hall.
      now apply app_inj_tail in Hall.
  - intros [->|[a ->]]; cbn; now rewrite !String.eqb_refl.
Qed.

(** X1.  A frame that yields [label] confirms exactly when the history
    ends in four entries of [label] (and holds at most one entry before
    them) and [label] is not the last confirmed label; and a frame never
    confirms another label than the one it yields. *)
Theorem frame_confirms_iff (st : State) (label : string) :
  (forall l, snd (process_frame st (Detected label)) = Some l -> l = label) /\
  (snd (process_frame st (Detected label)) = Some label <->
   (prediction_history st = repeat label 4 \/
    exists a, prediction_history st = a :: repeat label 4) /\
   last_prediction st <> Some label).
Proof.
  rewrite <- differs_iff, <- deque_append_unanimous, <- andb_true_iff.
  unfold process_frame.
  cbn [set_error set_history prediction_history last_prediction].
  destruct (_ && _ && _); cbn [snd]; split.
  - now intros l [= <-].
  - now split.
  - discriminate.
  - split; discriminate.
Qed.

(** ** Induction over traces *)

Lemma run_cons (st : State) (e : Event) (es : list Event) :
  run st (e :: es) =
    match step st e with
    | (st', played, Break) => (st', [played])
    | (st', played, Continue) =>
        (fst (run st' es), played :: snd (run st' es))
    end.
Proof.
  cbn [run]. destruct (step st e) as [[st' played] [|]]; [|reflexivity].
  now destruct (run st' es).
Qed.

(** A property of the state that every step keeps holds at the end of
    every run. *)
Lemma run_invariant (P : State -> Prop) (Q : Event -> Prop) :
  (forall st e, P st -> Q e -> P (fst (fst (step st e)))) ->
  forall es st, P st -> Forall Q es -> P (fst (run st es)).
Proof.
  intros Hstep. induction es as [|e es IH]; intros st HP HQ; [exact HP|].
  inversion HQ as [|? ? He Hes]; subst.
  rewrite run_cons. specialize (Hstep st e HP He).
  destruct (step st e) as [[st' played] [|]]; cbn [fst] in *.
  - now apply IH.
  - exact Hstep.
Qed.

Ltac key_cases st :=
  unfold handle_key;
  repeat match goal with
         | |- context [if ?b then _ else _] => destruct b
         | |- context [match last_prediction st with _ => _ end] =>
             destruct (last_prediction st)
         end.

(** A key leaves the history or empties it. *)
Lemma handle_key_history (st : State) (k : Z) :
  prediction_history (fst (handle_key st k)) = prediction_history st \/
  prediction_history (fst (handle_key st k)) = [].
Proof. key_cases st; cbn; auto. Qed.

Lemma deque_append_length (d : list string) (x : string) :
  List.length (deque_append HISTORY_MAXLEN d x) <= List.length d + 1.
Proof.
  unfold deque_append. destruct (_ <? _); rewrite ?length_app; cbn; [|lia].
  destruct d; cbn; rewrite ?length_app; cbn; lia.
Qed.

(** ** The history *)

Lemma step_history_bounded (st : State) (e : Event) :
  List.length (prediction_history st) <= HISTORY_MAXLEN ->
  List.length (prediction_history (fst (fst (step st e)))) <= HISTORY_MAXLEN.
Proof.
  intros Hle. destruct e as [[| |label]|k]; cbn [step].
  - exact Hle.
  - cbn. lia.
  - unfold process_frame.
    cbn [set_error set_history prediction_history last_prediction].
    destruct (_ && _ && _); cbn; [lia|].
    now apply deque_append_bounded.
  - destruct (handle_key_history st k) as [Hk|Hk];
      destruct (handle_key st k); cbn in *; rewrite Hk; [exact Hle|cbn; lia].
Qed.

(** X2.  The history never holds more than five labels: a bound that
    holds before a run holds after it, whatever frames and keys the run
    consists of. *)
Theorem history_never_exceeds_five (st : State) (es : list Event) :
  List.length (prediction_history st) <= HISTORY_MAXLEN ->
  List.length (prediction_history (fst (run st es))) <= HISTORY_MAXLEN.
Proof.
  intros Hle.
  apply (run_invariant
           (fun s => List.length (prediction_history s) <= HISTORY_MAXLEN)
           (fun _ => True)).
  - intros s e Hs _. now apply step_history_bounded.
  - exact Hle.
  - apply Forall_forall. trivial.
Qed.

Lemma history_never_exceeds_five_witness :
  List.length
    (prediction_history
       (fst (run initial_state
                 (detected_run 3 "A" ++ detected_run 4 "B"
                    ++ [Key AppendSpace; Frame (Detected "C")]))))
    <= HISTORY_MAXLEN.
Proof.
  apply (history_never_exceeds_five initial_state).
  apply Nat.le_0_l.
Defined.

(** ** How often confirmations fire *)

Lemma step_rate (st : State) (e : Event) :
  5 * List.length (confirmations [snd (fst (step st e))])
  + List.length (prediction_history (fst (fst (step st e))))
  <= List.length (prediction_history st) + count_detected [e].
Proof.
  destruct e as [[| |label]|k]; cbn [step count_detected].
  - cbn. lia.
  - cbn. lia.
  - unfold process_frame.
    cbn [set_error set_history prediction_history last_prediction].
    destruct ((_ =? 5) && all_equal _ _) eqn:Hu.
    + destruct (differs _ _); cbn.
      * apply deque_append_unanimous in Hu.
        destruct Hu as [->|[a ->]]; cbn; lia.
      * pose proof (deque_append_length (prediction_history st) label). lia.
    + cbn. pose proof (deque_append_length (prediction_history st) label).
      lia.
  - destruct (handle_key_history st k) as [Hk|Hk];
      destruct (handle_key st k); cbn in *; rewrite Hk; cbn; lia.
Qed.

(** X3.  Every confirmation uses up five labelled frames: five times the
    number of confirmations of a run, plus what is left in the history,
    is at most what the history held before plus the number of frames
    that yielded a label. *)
Theorem confirmations_cost_five_frames (es : list Event) (st : State) :
  5 * List.length (confirmations (snd (run st es)))
  + List.length (prediction_history (fst (run st es)))
  <= List.length (prediction_history st) + count_detected es.
Proof.
  revert st. induction es as [|e es IH]; intros st; [cbn; lia|].
  rewrite run_cons. pose proof (step_rate st e) as Hs.
  assert (Hc : count_detected (e :: es)
               = count_detected [e] + count_detected es)
    by (destruct e as [[| |?]|?]; reflexivity).
  rewrite Hc. clear Hc.
  destruct (step st e) as [[st' played] [|]]; cbn [fst snd] in *.
  - specialize (IH st').
    destruct played; cbn [confirmations List.length] in *; lia.
  - destruct played; cbn [confirmations List.length] in *; lia.
Qed.

(** X4.  Only labels that a frame of the run yielded are confirmed. *)
Theorem confirmations_were_detected
  (es : list Event) (st : State) (label : string) :
  In label (confirmations (snd (run st es))) -> In label (detected_labels es).
Proof.
  revert st. induction es as [|e es IH]; intros st; [now cbn|].
  rewrite run_cons.
  assert (Hs : forall l, snd (fst (step st e)) = Some l ->
                         detected_labels (e :: es) = l :: detected_labels es).
  { destruct e as [[| |l']|k]; cbn [step].
    - discriminate.
    - discriminate.
    - intros l Hl.
      destruct (process_frame st (Detected l')) as [st1 played] eqn:Hp.
      cbn in Hl. subst played.
      now destruct (process_frame_confirmed_state _ _ _ _ Hp) as [-> _].
    - destruct (handle_key st k). discriminate. }
  assert (Hmono : forall l, In l (detected_labels es) ->
                            In l (detected_labels (e :: es))).
  { destruct e as [[| |l']|k]; cbn; auto. }
  destruct (step st e) as [[st' played] [|]]; cbn [fst snd] in *.
  - destruct played as [l|]; cbn [confirmations].
    + rewrite (Hs l eq_refl). intros [->|Hin]; [now left|].
      right. now apply (IH st').
    + intros Hin. apply Hmono. now apply (IH st').
  - destruct played as [l|]; cbn [confirmations]; [|now intros []].
    rewrite (Hs l eq_refl). intros [->|[]]. now left.
Qed.

Lemma confirmations_were_detected_witness :
  In "A" (detected_labels (detected_run 5 "A")).
Proof.
  apply (confirmations_were_detected (detected_run 5 "A") initial_state "A").
  left. reflexivity.
Defined.

(** Without the accepting key, a step either fires nothing and keeps the
    last confirmed label, or confirms a label other than the last
    confirmed one and records it. *)
Lemma step_last_confirmed (st : State) (e : Event) :
  not_accept e ->
  (snd (fst (step st e)) = None /\
   last_prediction (fst (fst (step st e))) = last_prediction st) \/
  (exists l, snd (fst (step st e)) = Some l /\
             last_prediction (fst (fst (step st e))) = Some l /\
             last_prediction st <> Some l).
Proof.
  intros He. destruct e as [r|k]; cbn [step].
  - destruct (process_frame st r) as [st' played] eqn:Hp. cbn [fst snd].
    destruct played as [l|].
    + right. exists l. destruct r as [| |l']; try discriminate.
      destruct (process_frame_confirmed_state _ _ _ _ Hp)
        as (-> & _ & Hl & _).
      repeat split; [exact Hl|].
      unfold process_frame in Hp.
      cbn [set_error set_history prediction_history last_prediction] in Hp.
      destruct (differs l' (last_prediction st)) eqn:Hd.
      * now apply differs_iff.
      * rewrite andb_false_r in Hp. discriminate.
    + left. split; [reflexivity|].
      pose proof (process_frame_silent_keeps_last st r) as Hk.
      rewrite Hp in Hk. now apply Hk.
  - left. pose proof (handle_key_keeps_last st k He) as Hk.
    destruct (handle_key st k). now split.
Qed.

(** X5.  As long as the accepting key is not pressed, no label is
    confirmed twice in a row: in the list made of the last confirmed
    label before the run (if any) and the confirmations of the run, no
    two neighbours are equal. *)
Theorem successive_confirmations_differ (es : list Event) (st : State) :
  Forall not_accept es ->
  neighbours_differ
    (match last_prediction st with
     | Some l => l :: confirmations (snd (run st es))
     | None => confirmations (snd (run st es))
     end).
Proof.
  intros Hq. revert st.
  induction Hq as [|e es He _ IH]; intros st.
  - cbn. now destruct (last_prediction st).
  - rewrite run_cons.
    destruct (step_last_confirmed st e He) as [[Hs Hl]|(l & Hs & Hl & Hne)];
      destruct (step st e) as [[st' played] flow]; cbn [fst snd] in *;
      subst played.
    + specialize (IH st'). rewrite Hl in IH.
      destruct flow; cbn [snd confirmations]; [exact IH|].
      now destruct (last_prediction st).
    + specialize (IH st'). rewrite Hl in IH.
      destruct flow; cbn [snd confirmations].
      * destruct (last_prediction st) as [p|]; [|exact IH].
        split; [congruence|exact IH].
      * destruct (last_prediction st) as [p|]; cbn; [|trivial].
        split; [congruence|trivial].
Qed.

Lemma successive_confirmations_differ_witness :
  neighbours_differ
    (confirmations
       (snd (run initial_state
                 (detected_run 10 "A" ++ detected_run 5 "B"
                    ++ Key AppendSpace :: detected_run 7 "A")))).
Proof.
  apply (successive_confirmations_differ
           (detected_run 10 "A" ++ detected_run 5 "B"
              ++ Key AppendSpace :: detected_run 7 "A") initial_state).
  repeat constructor; discriminate.
Defined.

(** ** Accepting and the next confirmation *)

(** X6.  Accepting a label re-arms it: with a non-empty last confirmed
    label [L] and room in the sentence, the accepting key followed by five
    frames of [L] confirms [L] once more, on the fifth frame. *)
Theorem accept_rearms_label (st : State) (L : string) :
  last_prediction st = Some L ->
  L <> "" ->
  String.length (sentence st) < MAX_SENTENCE_LENGTH ->
  snd (run st (Key AcceptSymbol :: detected_run 5 L))
    = [None; None; None; None; None; Some L] /\
  sentence (fst (run st (Key AcceptSymbol :: detected_run 5 L)))
    = (sentence st ++ L)%string /\
  last_prediction (fst (run st (Key AcceptSymbol :: detected_run 5 L)))
    = Some L.
Proof.
  intros Hl Hne Hlen.
  rewrite (run_key_continue _ _ _ _ (handle_key_accept st L Hlen Hl Hne)).
  rewrite <- (app_nil_r (detected_run 5 L)).
  rewrite run_five_then by reflexivity.
  cbn. repeat split; reflexivity.
Qed.

Lemma accept_rearms_label_witness :
  let st := mkState [] (Some "L") "HEL" "" in
  snd (run st (Key AcceptSymbol :: detected_run 5 "L"))
    = [None; None; None; None; None; Some "L"] /\
  sentence (fst (run st (Key AcceptSymbol :: detected_run 5 "L"))) = "HELL" /\
  last_prediction (fst (run st (Key AcceptSymbol :: detected_run 5 "L")))
    = Some "L".
Proof.
  apply (accept_rearms_label (mkState [] (Some "L") "HEL" "") "L").
  - reflexivity.
  - discriminate.
  - unfold MAX_SENTENCE_LENGTH. simpl. lia.
Defined.

Lemma handle_key_accept_full (st : State) :
  MAX_SENTENCE_LENGTH <= String.length (sentence st) ->
  handle_key st AcceptSymbol = (set_error st LIMIT_ERROR, Continue).
Proof.
  intros Hge. unfold handle_key, AcceptSymbol. rewrite Z.eqb_refl.
  now destruct (Nat.ltb_spec (String.length (sentence st))
                             MAX_SENTENCE_LENGTH); [lia|].
Qed.

(** No trace of frames alone changes the sentence. *)
Lemma run_frames_sentence (es : list Event) (st : State) :
  Forall is_frame es -> sentence (fst (run st es)) = sentence st.
Proof.
  intros Hes.
  apply (run_invariant (fun s => sentence s = sentence st) is_frame);
    [|reflexivity|exact Hes].
  intros s [r|k] Hs Hf; [|now destruct Hf]. cbn [step].
  pose proof (process_frame_sentence s r) as Hr.
  destruct (process_frame s r). cbn in *. congruence.
Qed.

Lemma detected_run_frames (n : nat) (label : string) :
  Forall is_frame (detected_run n label).
Proof.
  apply Forall_forall. intros e He. apply repeat_spec in He. now subst e.
Qed.

Lemma detected_run_keeps (n : nat) (label : string) :
  Forall (keeps_confirmed label) (detected_run n label).
Proof.
  apply Forall_forall. intros e He. apply repeat_spec in He. now subst e.
Qed.

(** X7.  With 30 characters or more in the sentence the accepting key
    does not re-arm the label: it only sets the limit error, and however
    many frames of the last confirmed label [L] follow, none of them
    confirms, [L] stays the last confirmed label and the sentence stays
    as it is. *)
Theorem full_sentence_keeps_label_pending
  (st : State) (L : string) (n : nat) :
  last_prediction st = Some L ->
  MAX_SENTENCE_LENGTH <= String.length (sentence st) ->
  error_message (fst (handle_key st AcceptSymbol)) = LIMIT_ERROR /\
  confirmations (snd (run st (Key AcceptSymbol :: detected_run n L))) = [] /\
  last_prediction (fst (run st (Key AcceptSymbol :: detected_run n L)))
    = Some L /\
  sentence (fst (run st (Key AcceptSymbol :: detected_run n L)))
    = sentence st.
Proof.
  intros Hl Hfull.
  rewrite (run_key_continue _ _ _ _ (handle_key_accept_full st Hfull)).
  rewrite (handle_key_accept_full st Hfull).
  cbn [fst snd confirmations].
  destruct (run_keeps_confirmed L _ (detected_run_keeps n L)
              (set_error st LIMIT_ERROR) Hl) as [Hc Hk].
  rewrite run_frames_sentence by apply detected_run_frames.
  now repeat split.
Qed.

Lemma full_sentence_keeps_label_pending_witness :
  let st := mkState [] (Some "A") "ABCDEFGHIJKLMNOPQRSTUVWXYZ ABC" "" in
  error_message (fst (handle_key st AcceptSymbol)) = LIMIT_ERROR /\
  confirmations (snd (run st (Key AcceptSymbol :: detected_run 5 "A"))) = [] /\
  last_prediction (fst (run st (Key AcceptSymbol :: detected_run 5 "A")))
    = Some "A" /\
  sentence (fst (run st (Key AcceptSymbol :: detected_run 5 "A")))
    = "ABCDEFGHIJKLMNOPQRSTUVWXYZ ABC".
Proof.
  apply (full_sentence_keeps_label_pending
           (mkState [] (Some "A") "ABCDEFGHIJKLMNOPQRSTUVWXYZ ABC" "")
           "A" 5).
  - reflexivity.
  - unfold MAX_SENTENCE_LENGTH. simpl. lia.
Defined.

(** ** Events without effect *)

Lemma handle_key_unbound (st : State) (k : Z) :
  is_bound_key k = false -> handle_key st k = (st, Continue).
Proof.
  unfold is_bound_key. rewrite !orb_false_iff.
  intros ((((((H1 & H2) & H3) & H4) & H5) & H6) & H7).
  unfold handle_key. now rewrite H1, H2, H3, H4, H5, H6, H7.
Qed.

Lemma step_idle (st : State) (e : Event) :
  is_idle e = true -> step st e = (st, None, Continue).
Proof.
  destruct e as [[| |l]|k]; cbn [is_idle]; try discriminate.
  - reflexivity.
  - intros Hk. apply negb_true_iff in Hk. cbn [step].
    now rewrite handle_key_unbound.
Qed.

(** X8.  Frames without a hand and keys that no branch tests for can be
    struck from a trace: the final state and the confirmations are the
    same.  In particular they do not interrupt a run of equal labels. *)
Theorem idle_events_change_nothing (es : list Event) (st : State) :
  fst (run st (filter (fun e => negb (is_idle e)) es)) = fst (run st es) /\
  confirmations (snd (run st (filter (fun e => negb (is_idle e)) es)))
    = confirmations (snd (run st es)).
Proof.
  revert st. induction es as [|e es IH]; intros st; [now split|].
  cbn [filter]. destruct (is_idle e) eqn:Hi; cbn [negb].
  - rewrite (run_cons st e), (step_idle st e Hi). cbn [fst snd confirmations].
    apply IH.
  - rewrite !run_cons.
    destruct (step st e) as [[st' played] [|]]; cbn [fst snd]; [|now split].
    destruct (IH st') as [IHs IHc]. split; [exact IHs|].
    destruct played; cbn [confirmations]; now rewrite IHc.
Qed.

(** ** The loop iteration *)

Lemma land_255_periodic (k n : Z) :
  Z.land (k + 256 * n) 255 = Z.land k 255.
Proof.
  change 255%Z with (Z.ones 8).
  rewrite !Z.land_ones by lia.
  change (2 ^ 8)%Z with 256%Z.
  rewrite Z.mul_comm. apply Z_mod_plus_full.
Qed.

(** X9.  Only the low eight bits of what [cv2.waitKey] returns count:
    key codes that differ by a multiple of 256 drive the iteration alike. *)
Theorem key_code_taken_modulo_256
  (st : State) (r : option FrameResult) (k n : Z) (visible : bool) :
  loop_iteration st (mkInput r (k + 256 * n) visible)
    = loop_iteration st (mkInput r k visible).
Proof.
  unfold loop_iteration. cbn [cap_read wait_key window_visible].
  now rewrite land_255_periodic.
Qed.


(** X11.  The key is handled after the frame of the same iteration: when
    the frame confirms a non-empty label and the accepting key is down in
    that iteration, the label is played, goes into the sentence at once
    and is no longer pending. *)
Theorem confirm_and_accept_in_one_iteration
  (st : State) (L : string) (k : Z) :
  prediction_history st = repeat L 4 ->
  last_prediction st <> Some L ->
  L <> "" ->
  String.length (sentence st) < MAX_SENTENCE_LENGTH ->
  Z.land k 255 = AcceptSymbol ->
  loop_iteration st (mkInput (Some (Detected L)) k true)
    = (mkState [] None (sentence st ++ L)%string "", Some L, Continue).
Proof.
  intros Hh Hl Hne Hlen Hk. unfold loop_iteration.
  cbn [cap_read wait_key window_visible].
  rewrite (process_frame_confirms st L Hh (differs_true _ _ Hl)), Hk.
  now rewrite (handle_key_accept (mkState [] (Some L) (sentence st) "")
                                 L Hlen eq_refl Hne).
Qed.

Lemma confirm_and_accept_in_one_iteration_witness :
  loop_iteration (mkState ["A"; "A"; "A"; "A"] None "HI" "")
                 (mkInput (Some (Detected "A")) 32 true)
    = (mkState [] None "HIA" "", Some "A", Continue).
Proof.
  apply (confirm_and_accept_in_one_iteration
           (mkState ["A"; "A"; "A"; "A"] None "HI" "") "A" 32).
  - reflexivity.
  - discriminate.
  - discriminate.
  - unfold MAX_SENTENCE_LENGTH. simpl. lia.
  - reflexivity.
Defined.

(** ** The sentence over a run *)

(** A frame keeps the last confirmed label or replaces it by the label it
    yields. *)
Lemma process_frame_last (st : State) (r : FrameResult) :
  last_prediction (fst (process_frame st r)) = last_prediction st \/
  exists l, r = Detected l /\
            last_prediction (fst (process_frame st r)) = Some l.
Proof.
  destruct r as [| |l]; cbn; auto.
  destruct (_ && _ && _); cbn; eauto.
Qed.

(** A key keeps the last confirmed label or resets it. *)
Lemma handle_key_last (st : State) (k : Z) :
  last_prediction (fst (handle_key st k)) = last_prediction st \/
  last_prediction (fst (handle_key st k)) = None.
Proof.
  unfold handle_key. destruct (last_prediction st) as [p|] eqn:Hl;
    repeat match goal with
           | |- context [if ?b then _ else _] => destruct b
           end; cbn; rewrite ?Hl; auto.
Qed.

Lemma handle_key_sentence_bound (st : State) (k : Z) (m : nat) :
  1 <= m ->
  String.length (sentence st) <= MAX_SENTENCE_LENGTH - 1 + m ->
  (forall p, last_prediction st = Some p -> String.length p <= m) ->
  String.length (sentence (fst (handle_key st k)))
    <= MAX_SENTENCE_LENGTH - 1 + m.
Proof.
  intros Hm Hlen Hp. unfold handle_key.
  destruct (k =? ord " ")%Z.
  - destruct (Nat.ltb_spec (String.length (sentence st)) MAX_SENTENCE_LENGTH)
      as [Hlt|_]; [|exact Hlen].
    destruct (last_prediction st) as [p|]; [|exact Hlen].
    destruct (truthy (Some p)); [|exact Hlen].
    cbn. rewrite length_append. specialize (Hp p eq_refl).
    unfold MAX_SENTENCE_LENGTH in *. lia.
  - destruct (_ || _)%bool.
    + destruct (Nat.ltb_spec (String.length (sentence st))
                             MAX_SENTENCE_LENGTH) as [Hlt|_]; [|exact Hlen].
      cbn. rewrite length_append. cbn.
      unfold MAX_SENTENCE_LENGTH in *. lia.
    + destruct (_ || _)%bool.
      * cbn [fst set_error set_sentence sentence].
        rewrite drop_last_length. lia.
      * now destruct (_ || _)%bool.
Qed.

(** X12.  What does bound the sentence: when no label has more than [m]
    characters ([m] at least 1), a sentence of at most [29 + m]
    characters stays within [29 + m] characters over every run.  For
    labels of one character this is the limit of 30. *)
Theorem sentence_bounded_by_label_length
  (m : nat) (st : State) (es : list Event) :
  1 <= m ->
  String.length (sentence st) <= MAX_SENTENCE_LENGTH - 1 + m ->
  (forall p, last_prediction st = Some p -> String.length p <= m) ->
  Forall (label_within m) es ->
  String.length (sentence (fst (run st es))) <= MAX_SENTENCE_LENGTH - 1 + m.
Proof.
  intros Hm Hlen Hp Hes.
  apply (run_invariant
           (fun s => String.length (sentence s) <= MAX_SENTENCE_LENGTH - 1 + m
                     /\ forall p, last_prediction s = Some p ->
                                  String.length p <= m)
           (label_within m)); [|now split|exact Hes].
  clear st Hlen Hp Hes. intros st [r|k] [Hlen Hp] He; cbn [step].
  - pose proof (process_frame_sentence st r) as Hs.
    pose proof (process_frame_last st r) as Hl.
    destruct (process_frame st r) as [st' played]. cbn [fst] in *.
    split; [now rewrite Hs|].
    destruct Hl as [Hl|(l & -> & Hl)]; rewrite Hl; [exact Hp|].
    now intros p [= <-].
  - pose proof (handle_key_sentence_bound st k m Hm Hlen Hp) as Hs.
    pose proof (handle_key_last st k) as Hl.
    destruct (handle_key st k) as [st' flow]. cbn [fst] in *.
    split; [exact Hs|].
    destruct Hl as [Hl|Hl]; rewrite Hl; [exact Hp|discriminate].
Qed.

Lemma sentence_bounded_by_label_length_witness :
  String.length
    (sentence
       (fst (run initial_state
                 (repeat (Key AppendSpace) 29 ++ detected_run 5 "A"
                    ++ [Key AcceptSymbol; Key AcceptSymbol; Key AppendSpace]))))
    <= MAX_SENTENCE_LENGTH - 1 + 1.
Proof.
  apply (sentence_bounded_by_label_length 1 initial_state).
  - lia.
  - unfold MAX_SENTENCE_LENGTH. simpl. lia.
  - discriminate.
  - repeat constructor.
Defined.

(** X13.  The frames never edit the sentence: after any run that holds
    no key event the sentence is the one before the run. *)
Theorem frames_never_edit_sentence (es : list Event) (st : State) :
  Forall is_frame es -> sentence (fst (run st es)) = sentence st.
Proof. apply run_frames_sentence. Qed.

Lemma frames_never_edit_sentence_witness :
  sentence
    (fst (run (mkState [] None "HI" "")
              (detected_run 5 "A" ++ Frame FeatureMismatch
                 :: Frame NoDetection :: detected_run 5 "B")))
    = "HI".
Proof.
  apply (frames_never_edit_sentence
           (detected_run 5 "A" ++ Frame FeatureMismatch
              :: Frame NoDetection :: detected_run 5 "B")
           (mkState [] None "HI" "")).
  repeat constructor.
Defined.

(** ** Editing the sentence *)

Lemma drop_last_append (s t : string) :
  t <> "" -> drop_last (s ++ t)%string = (s ++ drop_last t)%string.
Proof.
  intros Ht. induction s as [|c s IH]; [reflexivity|].
  unfold drop_last in *. cbn [append String.length].
  rewrite Nat.sub_succ, Nat.sub_0_r.
  destruct (String.length (s ++ t)) as [|n] eqn:Hn.
  - rewrite length_append in Hn. destruct t; [now elim Ht|].
    cbn in Hn. lia.
  - cbn [substring]. f_equal. rewrite <- IH.
    now rewrite Nat.sub_succ, Nat.sub_0_r.
Qed.

Lemma handle_key_space (st : State) :
  String.length (sentence st) < MAX_SENTENCE_LENGTH ->
  handle_key st AppendSpace
    = (set_sentence st (sentence st ++ " ")%string, Continue).
Proof.
  intros Hlen. unfold handle_key.
  change (AppendSpace =? ord " ")%Z with false.
  change (AppendSpace =? ord "s")%Z with true. cbn [orb]. cbv iota.
  now destruct (Nat.ltb_spec (String.length (sentence st))
                             MAX_SENTENCE_LENGTH); [|lia].
Qed.

Lemma handle_key_delete (st : State) :
  handle_key st DeleteLast
    = (set_error (set_sentence st (drop_last (sentence st))) "", Continue).
Proof. reflexivity. Qed.

(** X14.  The delete key undoes the space key: with room in the
    sentence, [s] followed by [b] gives back the sentence, the history and
    the last confirmed label; only the error message is cleared. *)
Theorem delete_undoes_space (st : State) :
  String.length (sentence st) < MAX_SENTENCE_LENGTH ->
  fst (run st [Key AppendSpace; Key DeleteLast])
    = mkState (prediction_history st) (last_prediction st) (sentence st) "".
Proof.
  intros Hlen.
  rewrite (run_key_continue _ _ _ _ (handle_key_space st Hlen)).
  rewrite (run_key_continue _ _ _ _ (handle_key_delete _)).
  cbn [run fst set_error set_sentence sentence prediction_history
       last_prediction error_message].
  now rewrite drop_last_snoc.
Qed.

Lemma delete_undoes_space_witness :
  fst (run (mkState ["A"] (Some "B") "HELLO" "")
           [Key AppendSpace; Key DeleteLast])
    = mkState ["A"] (Some "B") "HELLO" "".
Proof.
  apply (delete_undoes_space (mkState ["A"] (Some "B") "HELLO" "")).
  unfold MAX_SENTENCE_LENGTH. simpl. lia.
Defined.

(** X15.  The delete key does not undo the accepting key: after
    accepting a non-empty label [L] and deleting once, the sentence holds
    all of [L] but its last character, while the label is no longer
    pending and the history is empty. *)
Theorem delete_after_accept (st : State) (L : string) :
  last_prediction st = Some L ->
  L <> "" ->
  String.length (sentence st) < MAX_SENTENCE_LENGTH ->
  fst (run st [Key AcceptSymbol; Key DeleteLast])
    = mkState [] None (sentence st ++ drop_last L)%string "".
Proof.
  intros Hl Hne Hlen.
  rewrite (run_key_continue _ _ _ _ (handle_key_accept st L Hlen Hl Hne)).
  rewrite (run_key_continue _ _ _ _ (handle_key_delete _)).
  cbn [run fst set_error set_sentence sentence prediction_history
       last_prediction error_message].
  now rewrite drop_last_append.
Qed.

Lemma delete_after_accept_witness :
  fst (run (mkState ["C"] (Some "AB") "HI" "")
           [Key AcceptSymbol; Key DeleteLast])
    = mkState [] None "HIA" "".
Proof.
  apply (delete_after_accept (mkState ["C"] (Some "AB") "HI" "") "AB").
  - reflexivity.
  - discriminate.
  - unfold MAX_SENTENCE_LENGTH. simpl. lia.
Defined.

Lemma substring_substring (s : string) :
  forall j k, j <= k -> substring 0 j (substring 0 k s) = substring 0 j s.
Proof.
  induction s as [|c s IH]; intros j k Hjk.
  - now destruct k.
  - destruct k as [|k]; [now replace j with 0 by lia|].
    destruct j as [|j]; [reflexivity|].
    cbn [substring]. f_equal. apply IH. lia.
Qed.

Lemma substring_length_le (s : string) :
  forall n, n <= String.length s -> String.length (substring 0 n s) = n.
Proof.
  induction s as [|c s IH]; intros [|n] Hn; cbn in *; try reflexivity;
    try lia.
  now rewrite IH by lia.
Qed.

(** X16.  Pressing the delete key [n] times keeps the first
    [len(sentence) - n] characters of the sentence, none when [n] is the
    length of the sentence or more; the characters that stay are never
    altered. *)
Theorem repeated_delete_truncates (n : nat) (st : State) :
  sentence (fst (run st (repeat (Key DeleteLast) n)))
    = substring 0 (String.length (sentence st) - n) (sentence st) /\
  String.length (sentence (fst (run st (repeat (Key DeleteLast) n))))
    = String.length (sentence st) - n.
Proof.
  assert (Hs : forall m s,
             sentence (fst (run s (repeat (Key DeleteLast) m)))
             = substring 0 (String.length (sentence s) - m) (sentence s)).
  { induction m as [|m IH]; intros s.
    - cbn [repeat run fst]. rewrite Nat.sub_0_r.
      generalize (sentence s). clear.
      induction s as [|c s IH]; cbn; [reflexivity|]. now rewrite <- IH at 1.
    - cbn [repeat].
      rewrite (run_key_continue _ _ _ _ (handle_key_delete s)).
      cbn [fst]. rewrite IH.
      cbn [set_error set_sentence sentence].
      rewrite drop_last_length. unfold drop_last.
      rewrite substring_substring by lia.
      f_equal. lia. }
  split; [apply Hs|].
  rewrite Hs. apply substring_length_le. lia.
Qed.

Lemma handle_key_space_full (st : State) :
  MAX_SENTENCE_LENGTH <= String.length (sentence st) ->
  handle_key st AppendSpace = (set_error st LIMIT_ERROR, Continue).
Proof.
  intros Hge. unfold handle_key.
  change (AppendSpace =? ord " ")%Z with false.
  change (AppendSpace =? ord "s")%Z with true. cbn [orb]. cbv iota.
  now destruct (Nat.ltb_spec (String.length (sentence st))
                             MAX_SENTENCE_LENGTH); [lia|].
Qed.

(** X17.  Pressing the space key [n] times on a sentence of at most 30
    characters fills it up to 30 characters and no further; the limit
    error is set exactly when a press found the sentence full. *)
Theorem repeated_space_saturates (n : nat) (st : State) :
  String.length (sentence st) <= MAX_SENTENCE_LENGTH ->
  String.length (sentence (fst (run st (repeat (Key AppendSpace) n))))
    = Nat.min MAX_SENTENCE_LENGTH (String.length (sentence st) + n) /\
  error_message (fst (run st (repeat (Key AppendSpace) n)))
    = if MAX_SENTENCE_LENGTH <? String.length (sentence st) + n
      then LIMIT_ERROR else error_message st.
Proof.
  revert st. induction n as [|n IH]; intros st Hle.
  - cbn [repeat run fst]. rewrite Nat.add_0_r.
    destruct (Nat.ltb_spec MAX_SENTENCE_LENGTH (String.length (sentence st)));
      [lia|]. split; [lia|reflexivity].
  - cbn [repeat].
    destruct (Nat.lt_ge_cases (String.length (sentence st))
                              MAX_SENTENCE_LENGTH) as [Hlt|Hge].
    + rewrite (run_key_continue _ _ _ _ (handle_key_space st Hlt)).
      cbn [fst].
      set (st1 := set_sentence st (sentence st ++ " ")%string).
      assert (Hlen1 : String.length (sentence st1)
                      = String.length (sentence st) + 1)
        by (cbn; now rewrite length_append).
      destruct (IH st1) as [IHl IHe]; [lia|].
      rewrite IHl, IHe, Hlen1.
      replace (String.length (sentence st) + 1 + n)
        with (String.length (sentence st) + S n) by lia.
      now split.
    + rewrite (run_key_continue _ _ _ _ (handle_key_space_full st Hge)).
      cbn [fst].
      destruct (IH (set_error st LIMIT_ERROR)) as [IHl IHe]; [exact Hle|].
      rewrite IHl, IHe. cbn [set_error sentence error_message].
      destruct (Nat.ltb_spec MAX_SENTENCE_LENGTH
                             (String.length (sentence st) + S n)); [|lia].
      split; [lia|]. now destruct (_ <? _).
Qed.

Lemma repeated_space_saturates_witness :
  String.length
    (sentence (fst (run (mkState [] None "HELLO" "")
                        (repeat (Key AppendSpace) 40))))
    = Nat.min MAX_SENTENCE_LENGTH (5 + 40) /\
  error_message (fst (run (mkState [] None "HELLO" "")
                          (repeat (Key AppendSpace) 40)))
    = if MAX_SENTENCE_LENGTH <? 5 + 40 then LIMIT_ERROR else "".
Proof.
  apply (repeated_space_saturates 40 (mkState [] None "HELLO" "")).
  unfold MAX_SENTENCE_LENGTH. simpl. lia.
Defined.

(** * Further properties of the frame classification *)

Lemma add_hands_count_from (Coord : Type) (csub cmin : Coord -> Coord -> Coord)
      (hands : list (list (Landmark Coord))) :
  forall (b : Buffers Coord) (n : nat),
    0 < n ->
    List.length (x_coords Coord b) = n ->
    List.length (y_coords Coord b) = n ->
    List.length (z_coords Coord b) = n ->
    exists b',
      add_hands Coord csub cmin b hands = Some b' /\
      List.length (data_aux Coord b')
        = List.length (data_aux Coord b) + 3 * List.length (List.concat hands).
Proof.
  induction hands as [|hand hands IH]; intros b n Hn Hx Hy Hz.
  - exists b. split; [reflexivity|]. cbn. lia.
  - destruct (add_hand_count Coord csub cmin b hand n Hx Hy Hz)
      as (b1 & Hb1 & Hd & Hx1 & Hy1 & Hz1); [lia|].
    destruct (IH b1 (n + List.length hand)) as (b2 & Hb2 & Hd2);
      try assumption; [lia|].
    exists b2. cbn [add_hands]. rewrite Hb1. split; [exact Hb2|].
    rewrite Hd2, Hd. cbn [List.concat]. rewrite length_app. lia.
Qed.

Lemma classify_frame_mismatch_or_label
      (Coord : Type) (csub cmin : Coord -> Coord -> Coord)
      (n_features_in_ : nat) (predict : list Coord -> string)
      (hand : list (Landmark Coord)) (hands : list (list (Landmark Coord))) :
  hand <> [] ->
  exists data,
    List.length data = 3 * List.length (List.concat (hand :: hands)) /\
    classify_frame Coord csub cmin n_features_in_ predict (hand :: hands)
      = Some (if 3 * List.length (List.concat (hand :: hands))
                 =? n_features_in_
              then Detected (predict data) else FeatureMismatch).
Proof.
  intros Hne. unfold classify_frame. cbn [add_hands].
  destruct (add_hand_count Coord csub cmin (empty_buffers Coord) hand 0
              eq_refl eq_refl eq_refl)
    as (b1 & -> & Hd & Hx1 & Hy1 & Hz1);
    [destruct hand; [now elim Hne|cbn; lia]|].
  destruct (add_hands_count_from Coord csub cmin hands b1
              (0 + List.length hand))
    as (b2 & -> & Hd2); try assumption;
    [destruct hand; [now elim Hne|cbn; lia]|].
  exists (data_aux Coord b2).
  assert (Hlen : List.length (data_aux Coord b2)
                 = 3 * List.length (List.concat (hand :: hands))).
  { rewrite Hd2, Hd. cbn [List.concat empty_buffers data_aux List.length].
    rewrite length_app. lia. }
  split; [exact Hlen|]. rewrite Hlen.
  now destruct (_ =? _).
Qed.

(** X18.  When the first hand has a landmark, classifying the frame
    raises nothing and is decided by a count: the feature vector holds
    three numbers per landmark of every hand, and the frame yields the
    classifier's label for that vector when the count is the size the
    classifier expects, a mismatch otherwise. *)
Theorem classify_frame_by_count
      (Coord : Type) (csub cmin : Coord -> Coord -> Coord)
      (n_features_in_ : nat) (predict : list Coord -> string)
      (hand : list (Landmark Coord)) (hands : list (list (Landmark Coord))) :
  hand <> [] ->
  exists data,
    List.length data = 3 * List.length (List.concat (hand :: hands)) /\
    classify_frame Coord csub cmin n_features_in_ predict (hand :: hands)
      = Some (if 3 * List.length (List.concat (hand :: hands))
                 =? n_features_in_
              then Detected (predict data) else FeatureMismatch).
Proof. apply classify_frame_mismatch_or_label. Qed.

Lemma classify_frame_by_count_witness :
  exists data : list Z,
    List.length data = 3 * 2 /\
    classify_frame Z Z.sub Z.min 6 (fun _ => "A")
                   [[mkLandmark Z 5 7 9; mkLandmark Z 6 4 9]%Z]
      = Some (Detected "A").
Proof.
  exact (classify_frame_by_count Z Z.sub Z.min 6 (fun _ => "A")
           [mkLandmark Z 5 7 9; mkLandmark Z 6 4 9]%Z []
           ltac:(discriminate)).
Defined.

(** X19.  A second hand spoils a frame that one hand would pass: when
    the landmarks of the first hand alone give the expected number of
    features, the same hand together with any other hand that has a
    landmark gives a mismatch. *)
Theorem second_hand_is_a_mismatch
      (Coord : Type) (csub cmin : Coord -> Coord -> Coord)
      (n_features_in_ : nat) (predict : list Coord -> string)
      (hand other : list (Landmark Coord)) :
  3 * List.length hand = n_features_in_ ->
  hand <> [] ->
  other <> [] ->
  (exists data,
      classify_frame Coord csub cmin n_features_in_ predict [hand]
        = Some (Detected (predict data))) /\
  classify_frame Coord csub cmin n_features_in_ predict [hand; other]
    = Some FeatureMismatch.
Proof.
  intros Hn Hh Ho. split.
  - destruct (classify_frame_mismatch_or_label Coord csub cmin n_features_in_
                predict hand [] Hh) as (data & Hlen & Hc).
    exists data. rewrite Hc. cbn [List.concat] in *.
    rewrite app_nil_r in *.
    now destruct (Nat.eqb_spec (3 * List.length hand) n_features_in_).
  - apply classify_frame_mismatch.
    + discriminate.
    + repeat constructor; assumption.
    + cbn [List.concat]. rewrite app_nil_r, length_app.
      destruct other; [now elim Ho|]. cbn. lia.
Qed.

Lemma second_hand_is_a_mismatch_witness :
  (exists data : list Z,
      classify_frame Z Z.sub Z.min 3 (fun _ => "A") [[mkLandmark Z 5 7 9]%Z]
        = Some (Detected "A")) /\
  classify_frame Z Z.sub Z.min 3 (fun _ => "A")
                 [[mkLandmark Z 5 7 9]%Z; [mkLandmark Z 1 2 3]%Z]
    = Some FeatureMismatch.
Proof.
  apply (second_hand_is_a_mismatch Z Z.sub Z.min 3 (fun _ => "A")
           [mkLandmark Z 5 7 9]%Z [mkLandmark Z 1 2 3]%Z).
  - reflexivity.
  - discriminate.
  - discriminate.
Defined.

(** * Properties of the confirmation sound *)

Lemma starts_with_sep_wav (label : string) :
  starts_with_sep (label ++ ".wav")%string = starts_with_sep label.
Proof. now destruct label. Qed.

Lemma ends_with_sep_append (s t : string) :
  t <> "" -> ends_with_sep (s ++ t)%string = ends_with_sep t.
Proof.
  intros Ht. induction s as [|c s IH]; [reflexivity|].
  cbn [append ends_with_sep]. rewrite IH.
  destruct (s ++ t)%string eqn:Hst; [|reflexivity].
  destruct s; [now elim Ht|discriminate].
Qed.

Lemma append_nonempty (s t : string) :
  t <> "" -> String.eqb (s ++ t)%string "" = false.
Proof.
  intros Ht. destruct s; cbn; [|reflexivity].
  now destruct t.
Qed.

(** The audio directory is a path that is not empty and does not end in a
    separator, whatever [BASE_DIR] is. *)
Lemma sound_dir_shape (BASE_DIR : string) :
  String.eqb (sound_dir BASE_DIR) "" = false /\
  ends_with_sep (sound_dir BASE_DIR) = false.
Proof.
  unfold sound_dir, path_join.
  change (starts_with_sep "audios") with false. cbv iota.
  destruct (_ || _)%bool.
  - now rewrite append_nonempty, ends_with_sep_append.
  - now rewrite append_nonempty, ends_with_sep_append.
Qed.

Lemma sound_file_shape (BASE_DIR label : string) :
  sound_file BASE_DIR label =
    if starts_with_sep label then (label ++ ".wav")%string
    else (sound_dir BASE_DIR ++ "/" ++ label ++ ".wav")%string.
Proof.
  unfold sound_file, path_join at 1. rewrite starts_with_sep_wav.
  destruct (starts_with_sep label); [reflexivity|].
  destruct (sound_dir_shape BASE_DIR) as [-> ->]. reflexivity.
Qed.

(** X20.  Which file a confirmation plays: for a label that does not
    begin with a slash it is [<label>.wav] right inside the audio
    directory, while a label that begins with a slash names a file
    outside of it, [<label>.wav] taken as an absolute path.  The
    playback of the file is started when the file exists; otherwise a
    warning that names the label is logged and nothing is played. *)
Theorem sound_played_for_label
  (BASE_DIR : string) (path_exists : string -> bool) (label : string) :
  play_sound_for_prediction BASE_DIR path_exists label =
    let file :=
      if starts_with_sep label then (label ++ ".wav")%string
      else (sound_dir BASE_DIR ++ "/" ++ label ++ ".wav")%string in
    if path_exists file then PlaySound file
    else LogWarning ("Sound file for '" ++ label ++ "' not found.")%string.
Proof.
  unfold play_sound_for_prediction. now rewrite sound_file_shape.
Qed.

Lemma append_cancel_l (s a b : string) :
  (s ++ a)%string = (s ++ b)%string -> a = b.
Proof.
  induction s as [|c s IH]; cbn; [trivial|].
  intros [= H]. now apply IH.
Qed.

Lemma append_cancel_r (t : string) :
  forall a b, (a ++ t)%string = (b ++ t)%string -> a = b.
Proof.
  induction a as [|c a IH]; intros [|d b] H; cbn in H.
  - reflexivity.
  - apply (f_equal String.length) in H. cbn in H.
    rewrite length_append in H. lia.
  - apply (f_equal String.length) in H. cbn in H.
    rewrite length_append in H. lia.
  - injection H as -> H. f_equal. now apply IH.
Qed.

(** X21.  Labels that do not begin with a slash never share a sound
    file: different labels have different files. *)
Theorem sound_files_distinct (BASE_DIR label1 label2 : string) :
  starts_with_sep label1 = false ->
  starts_with_sep label2 = false ->
  label1 <> label2 ->
  sound_file BASE_DIR label1 <> sound_file BASE_DIR label2.
Proof.
  intros H1 H2 Hne. rewrite !sound_file_shape, H1, H2. intros Heq.
  apply Hne.
  apply append_cancel_l in Heq. apply append_cancel_l in Heq.
  now apply append_cancel_r in Heq.
Qed.

Lemma sound_files_distinct_witness :
  sound_file "/home/user/project" "A" <> sound_file "/home/user/project" "AB".
Proof.
  apply (sound_files_distinct "/home/user/project" "A" "AB").
  - reflexivity.
  - reflexivity.
  - discriminate.
Defined.
